(** * Multi-level building mesh generator (CG_2): a shallow embedding

    This development embeds the OBJ mesh generators of the CG_2 scripts:
    the single-level generator ([Single]) and the multi-level generator
    (ring builder, vertex, face and normal generators, OBJ serializer and
    command-line validator).

    Modelling choices:
    - JavaScript numbers are modelled as exact real numbers [R]; IEEE
      rounding is abstracted away, and the NaN produced by [parseInt] or
      [parseFloat] on non-numeric text is not represented.
    - [===] on numbers is the decidable equality [Req_EM_T].
    - An out-of-range array read that would make the JavaScript code throw
      a [TypeError] is modelled by [None].
    - The OBJ file is modelled as a list of structured lines; the decimal
      formatting of [toFixed(4)] is abstracted away. *)

From Stdlib Require Import Reals Lra Lia ZArith String List Sorted.
Import ListNotations.

Open Scope R_scope.
Open Scope bool_scope.

(** ** Shared data: vectors, levels, rings, faces *)

(** A 3-component vector [x, y, z], as the JavaScript arrays hold them. *)
Definition vec3 : Type := (R * R * R)%type.

Definition mk3 (x y z : R) : vec3 := (x, y, z).

(** A level: [{height, baseRadius, topRadius}]. *)
Record level := mkLevel {
  height : R;
  baseRadius : R;
  topRadius : R
}.

(** A ring: [{y, r}]. *)
Record ring := mkRing {
  ring_y : R;
  ring_r : R
}.

(** A triangle: three 1-based vertex indices [[v1, v2, v3]]. *)
Definition face : Type := (Z * Z * Z)%type.

(** JavaScript's strict equality on numbers. *)
Definition num_eqb (a b : R) : bool :=
  if Req_EM_T a b then true else false.

(** [for (let i = 0; i < n; i++)]: the loop counter values. *)
Definition seqZ (n : Z) : list Z := map Z.of_nat (seq 0 (Z.to_nat n)).

(** ** Ring builder *)

(** [isUniqueRing(rings, y, r)] *)
Definition isUniqueRing (rings : list ring) (y r : R) : bool :=
  forallb (fun ring => negb (num_eqb (ring_y ring) y && num_eqb (ring_r ring) r))
    rings.

(** The body of the [for (let level of levels)] loop of [buildRings],
    threading [rings] and [currentY]. The upper ring uses [rings.some]. *)
Fixpoint buildRings_loop (levels : list level) (rings : list ring) (currentY : R)
  : list ring :=
  match levels with
  | [] => rings
  | level :: rest =>
      let rings1 :=
        if isUniqueRing rings currentY (baseRadius level)
        then rings ++ [mkRing currentY (baseRadius level)] else rings in
      let currentY' := currentY + height level in
      let rings2 :=
        if negb (existsb (fun ring => num_eqb (ring_y ring) currentY'
                                      && num_eqb (ring_r ring) (topRadius level)) rings1)
        then rings1 ++ [mkRing currentY' (topRadius level)] else rings1 in
      buildRings_loop rest rings2 currentY'
  end.

(** [buildRings(levels)] *)
Definition buildRings (levels : list level) : list ring :=
  buildRings_loop levels [] 0.

Definition ring_pair (r : ring) : R * R := (ring_y r, ring_r r).

(** ** Vector math *)

(** Modelled from the spec: the vector library [A01781166-3d-lib.js] (object
    [V3]) is imported by both generators but is not part of the sources at
    hand. The spec describes it as subtract, cross product and normalize on
    3-component vectors; [cross] is the usual right-handed cross product and
    [normalize] divides by the Euclidean length (in [R], dividing by a zero
    length gives the zero vector). *)
Module V3.

Definition subtract (a b : vec3) : vec3 :=
  let '(a1, a2, a3) := a in
  let '(b1, b2, b3) := b in
  (a1 - b1, a2 - b2, a3 - b3).

Definition cross (a b : vec3) : vec3 :=
  let '(a1, a2, a3) := a in
  let '(b1, b2, b3) := b in
  (a2 * b3 - a3 * b2, a3 * b1 - a1 * b3, a1 * b2 - a2 * b1).

Definition dot (a b : vec3) : R :=
  let '(a1, a2, a3) := a in
  let '(b1, b2, b3) := b in
  a1 * b1 + a2 * b2 + a3 * b3.

Definition length (v : vec3) : R := sqrt (dot v v).

Definition normalize (v : vec3) : vec3 :=
  let '(x, y, z) := v in
  let n := length v in
  (x / n, y / n, z / n).

End V3.

(** ** Vertex generator *)

(** [rings[rings.length - 1]]; reading [.y] of it throws when [rings] is empty. *)
Fixpoint last_ring (rings : list ring) : option ring :=
  match rings with
  | [] => None
  | [r] => Some r
  | _ :: rs => last_ring rs
  end.

(** The inner [for (let i = 0; i < numSides; i++)] loop of [vertices]. *)
Definition ring_vertices (angleStep : R) (numSides : Z) (ring : ring) : list vec3 :=
  map (fun i =>
         let angle := IZR i * angleStep in
         mk3 (cos angle * ring_r ring) (ring_y ring) (sin angle * ring_r ring))
    (seqZ numSides).

(** [vertices(numSides, levels)]: returns [{ vertices, rings }]; [None] is the
    [TypeError] of [rings[rings.length - 1].y] on an empty ring list. *)
Definition vertices (numSides : Z) (levels : list level)
  : option (list vec3 * list ring) :=
  let rings := buildRings levels in
  match last_ring rings with
  | None => None
  | Some top =>
      let height := ring_y top in
      let angleStep := (2 * PI) / IZR numSides in
      Some ([mk3 0 0 0; mk3 0 height 0]
              ++ flat_map (ring_vertices angleStep numSides) rings, rings)
  end.

(** ** Face generator *)

(** The two triangles of the lateral quad between rings [lower] and [upper]
    at sample [i] (body of the inner loop of [faces]). *)
Definition side_faces (numSides lower upper i : Z) : list face :=
  let baseStart := 3%Z in
  let baseCurrent := (baseStart + lower * numSides + i)%Z in
  let baseNext := (baseStart + lower * numSides + Z.rem (i + 1) numSides)%Z in
  let topCurrent := (baseStart + upper * numSides + i)%Z in
  let topNext := (baseStart + upper * numSides + Z.rem (i + 1) numSides)%Z in
  [(baseCurrent, baseNext, topNext); (baseCurrent, topNext, topCurrent)].

(** [faces(numSides, rings)]: returns [{ facesBase, facesTop, facesSides }].
    JavaScript's [%] is the truncated remainder [Z.rem]. *)
Definition faces (numSides : Z) (rings : list ring)
  : list face * list face * list face :=
  let centerBaseIdx := 1%Z in
  let centerTopIdx := 2%Z in
  let baseStart := 3%Z in
  let numRings := Z.of_nat (List.length rings) in
  let bottomRing := 0%Z in
  let topRing := (numRings - 1)%Z in
  let facesBase :=
    map (fun i =>
           let baseCurrent := (baseStart + bottomRing * numSides + i)%Z in
           let baseNext :=
             (baseStart + bottomRing * numSides + Z.rem (i + 1) numSides)%Z in
           (centerBaseIdx, baseNext, baseCurrent))
      (seqZ numSides) in
  let facesTop :=
    map (fun i =>
           let topCurrent := (baseStart + topRing * numSides + i)%Z in
           let topNext :=
             (baseStart + topRing * numSides + Z.rem (i + 1) numSides)%Z in
           (centerTopIdx, topCurrent, topNext))
      (seqZ numSides) in
  let facesSides :=
    flat_map (fun j =>
                let lower := j in
                let upper := (j + 1)%Z in
                flat_map (side_faces numSides lower upper) (seqZ numSides))
      (seqZ (numRings - 1)) in
  (facesBase, facesTop, facesSides).

(** ** Normal generator *)

(** [vertices[k]]; an index outside the array gives [undefined], on which the
    vector library fails: modelled by [None]. *)
Definition lookup (vs : list vec3) (k : Z) : option vec3 :=
  if (k <? 0)%Z then None else nth_error vs (Z.to_nat k).

(** The normal of the first triangle of the lateral quad between rings
    [lower] and [upper] at sample [i] (body of the inner loop of [normals]). *)
Definition side_normal (numSides : Z) (vs : list vec3) (lower upper i : Z)
  : option vec3 :=
  let baseStart := 3%Z in
  let baseCurrent := (baseStart + lower * numSides + i)%Z in
  let baseNext := (baseStart + lower * numSides + Z.rem (i + 1) numSides)%Z in
  let topNext := (baseStart + upper * numSides + Z.rem (i + 1) numSides)%Z in
  match lookup vs (baseCurrent - 1), lookup vs (baseNext - 1),
        lookup vs (topNext - 1) with
  | Some v1, Some v2, Some v3 =>
      let v12 := V3.subtract v2 v1 in
      let v13 := V3.subtract v3 v1 in
      Some (V3.normalize (V3.cross v12 v13))
  | _, _, _ => None
  end.

(** One step of the loops of [normals]: push the normal of quad [(j, i)] and
    push [normals.length] onto [sideNormalIdx]. *)
Definition normals_step (numSides : Z) (vs : list vec3)
  (acc : option (list vec3 * list Z)) (ji : Z * Z) : option (list vec3 * list Z) :=
  match acc with
  | None => None
  | Some (ns, sideNormalIdx) =>
      let '(j, i) := ji in
      match side_normal numSides vs j (j + 1) i with
      | None => None
      | Some normal =>
          let ns' := ns ++ [normal] in
          Some (ns', sideNormalIdx ++ [Z.of_nat (List.length ns')])
      end
  end.

(** The [(j, i)] pairs visited by the nested loops over ring pairs and samples. *)
Definition quad_indices (numSides : Z) (numRings : Z) : list (Z * Z) :=
  flat_map (fun j => map (fun i => (j, i)) (seqZ numSides)) (seqZ (numRings - 1)).

(** [normals(numSides, vertices, rings)]: returns
    [{ normals, baseNormalIdx, topNormalIdx, sideNormalIdx }]. *)
Definition normals (numSides : Z) (vs : list vec3) (rings : list ring)
  : option (list vec3 * Z * Z * list Z) :=
  let numRings := Z.of_nat (List.length rings) in
  let ns0 := [mk3 0 (-1) 0] in
  let baseNormalIdx := Z.of_nat (List.length ns0) in
  let ns1 := ns0 ++ [mk3 0 1 0] in
  let topNormalIdx := Z.of_nat (List.length ns1) in
  match fold_left (normals_step numSides vs) (quad_indices numSides numRings)
          (Some (ns1, [])) with
  | None => None
  | Some (ns, sideNormalIdx) => Some (ns, baseNormalIdx, topNormalIdx, sideNormalIdx)
  end.

(** ** OBJ serializer *)

(** A line of the OBJ file. [LF a na b nb c nc] is [f a//na b//nb c//nc]; a
    normal index read out of [sideNormalIdx] may be [undefined] ([None]). *)
Inductive obj_line :=
| LHeader
| LCount (n : nat) (what : string)
| LV (v : vec3)
| LVN (n : vec3)
| LF (a : Z) (na : option Z) (b : Z) (nb : option Z) (c : Z) (nc : option Z).

Definition face_line (f : face) (n : option Z) : obj_line :=
  let '(a, b, c) := f in LF a n b n c n.

(** The [for (let i = 0; i < facesSides.length; i++)] loop, with normal index
    [sideNormalIdx[Math.floor(i / 2)]]. *)
Definition side_lines (facesSides : list face) (sideNormalIdx : list Z)
  : list obj_line :=
  map (fun '(i, f) => face_line f (nth_error sideNormalIdx (Nat.div i 2)))
    (combine (seq 0 (List.length facesSides)) facesSides).

(** [createOBJ(...)]: the lines written to the file. *)
Definition createOBJ (vs ns : list vec3) (facesBase facesTop facesSides : list face)
  (baseNormalIdx topNormalIdx : Z) (sideNormalIdx : list Z) : list obj_line :=
  [LHeader]
  ++ [LCount (List.length vs) "vertices"] ++ map LV vs
  ++ [LCount (List.length ns) "normals"] ++ map LVN ns
  ++ [LCount (List.length facesBase + List.length facesTop + List.length facesSides)
        "faces"]
  ++ map (fun f => face_line f (Some baseNormalIdx)) facesBase
  ++ map (fun f => face_line f (Some topNormalIdx)) facesTop
  ++ side_lines facesSides sideNormalIdx.

(** The result of running the script. *)
Inductive outcome :=
| Exit1                          (* process.exit(1) after a validation error *)
| Crash                          (* an uncaught TypeError *)
| Written (lines : list obj_line).

(** The body of [main] after [getInputs]: the mesh construction pipeline. *)
Definition generate (numSides : Z) (levels : list level) : outcome :=
  match vertices numSides levels with
  | None => Crash
  | Some (v, rings) =>
      let '(facesBase, facesTop, facesSides) := faces numSides rings in
      match normals numSides v rings with
      | None => Crash
      | Some (n, baseNormalIdx, topNormalIdx, sideNormalIdx) =>
          Written (createOBJ v n facesBase facesTop facesSides
                     baseNormalIdx topNormalIdx sideNormalIdx)
      end
  end.

(** ** Command-line validation *)

(** JavaScript's [a <= b] and [a < b] on numbers. *)
Definition num_leb (a b : R) : bool := if Rle_dec a b then true else false.

(** The parsed inputs: [{ numSides, height, baseRadius, topRadius, numLevels,
    levels }]. *)
Record inputs := mkInputs {
  in_numSides : Z;
  in_height : R;
  in_baseRadius : R;
  in_topRadius : R;
  in_numLevels : Z;
  in_levels : list level
}.

Section CommandLine.

(** [parseInt] and [parseFloat] of the JavaScript runtime, on the numeric
    results they give (their NaN is not represented). *)
Variable parseInt : string -> Z.
Variable parseFloat : string -> R.

(** [args[k] ? parse(args[k]) : d]: a missing argument ([undefined]) and the
    empty string are falsy. *)
Definition arg_or {A} (parse : string -> A) (args : list string) (k : nat) (d : A) : A :=
  match nth_error args k with
  | None => d
  | Some EmptyString => d
  | Some s => parse s
  end.

(** The [for (let i = 0; i < numLevels; i++)] loop of [getInputs]; [None] is
    [process.exit(1)]. *)
Fixpoint levels_loop (args : list string) (height baseRadius topRadius : R)
  (is : list nat) : option (list level) :=
  match is with
  | [] => Some []
  | i :: rest =>
      let levelHeight := arg_or parseFloat args (5 + i * 3) height in
      let levelBaseRadius := arg_or parseFloat args (6 + i * 3) baseRadius in
      let levelTopRadius := arg_or parseFloat args (7 + i * 3) topRadius in
      if num_leb levelHeight 0 || num_leb levelBaseRadius 0 || num_leb levelTopRadius 0
      then None
      else
        match levels_loop args height baseRadius topRadius rest with
        | None => None
        | Some ls => Some (mkLevel levelHeight levelBaseRadius levelTopRadius :: ls)
        end
  end.

(** [getInputs()] on the command-line arguments [process.argv.slice(2)];
    [None] is [process.exit(1)]. *)
Definition getInputs (args : list string) : option inputs :=
  let numSides := arg_or parseInt args 0 8%Z in
  let height := arg_or parseFloat args 1 6 in
  let baseRadius := arg_or parseFloat args 2 1 in
  let topRadius := arg_or parseFloat args 3 (8 / 10) in
  let numLevels := arg_or parseInt args 4 0%Z in
  if (numSides <? 3)%Z || (36 <? numSides)%Z then None
  else if num_leb height 0 || num_leb baseRadius 0 || num_leb topRadius 0 then None
  else
    let base := mkLevel height baseRadius topRadius in
    if (0 <? numLevels)%Z then
      if (5 + numLevels * 3 <? Z.of_nat (List.length args))%Z then None
      else
        match levels_loop args height baseRadius topRadius
                (seq 0 (Z.to_nat numLevels)) with
        | None => None
        | Some ls =>
            Some (mkInputs numSides height baseRadius topRadius numLevels (base :: ls))
        end
    else Some (mkInputs numSides height baseRadius topRadius numLevels [base]).

(** [main()]. *)
Definition main (args : list string) : outcome :=
  match getInputs args with
  | None => Exit1
  | Some inp => generate (in_numSides inp) (in_levels inp)
  end.

End CommandLine.

(** ** The single-level generator *)

Module Single.

(** [vertices(numSides, height, baseRadius, topRadius)]: the two centres, then
    for each sample a base vertex followed by a top vertex. *)
Definition vertices (numSides : Z) (height baseRadius topRadius : R) : list vec3 :=
  let angleStep := (2 * PI) / IZR numSides in
  [mk3 0 0 0; mk3 0 height 0]
  ++ flat_map (fun i =>
                 let angle := IZR i * angleStep in
                 [mk3 (cos angle * baseRadius) 0 (sin angle * baseRadius);
                  mk3 (cos angle * topRadius) height (sin angle * topRadius)])
       (seqZ numSides).

(** [faces(numSides)]: returns [{ facesBase, facesTop, facesSides }]. *)
Definition faces (numSides : Z) : list face * list face * list face :=
  let centerBaseIdx := 1%Z in
  let centerTopIdx := 2%Z in
  let baseStart := 3%Z in
  let topStart := 4%Z in
  let idx i :=
    let baseCurrent := (baseStart + 2 * i)%Z in
    let baseNext := if (i =? numSides - 1)%Z then baseStart else (baseCurrent + 2)%Z in
    let topCurrent := (topStart + 2 * i)%Z in
    let topNext := if (i =? numSides - 1)%Z then topStart else (topCurrent + 2)%Z in
    (baseCurrent, baseNext, topCurrent, topNext) in
  (map (fun i => let '(bc, bn, _, _) := idx i in (centerBaseIdx, bn, bc)) (seqZ numSides),
   map (fun i => let '(_, _, tc, tn) := idx i in (centerTopIdx, tc, tn)) (seqZ numSides),
   flat_map (fun i => let '(bc, bn, tc, tn) := idx i in [(bc, bn, tn); (bc, tn, tc)])
     (seqZ numSides)).

(** The normal of side [i] (body of the loop of [normals]); here
    [baseStart = 1] and [topStart = 2], and the second edge is [v2 -> v3]. *)
Definition side_normal (numSides : Z) (vs : list vec3) (i : Z) : option vec3 :=
  let baseStart := 1%Z in
  let topStart := 2%Z in
  let baseCurrent := (baseStart + 2 * i)%Z in
  let baseNext := if (i =? numSides - 1)%Z then baseStart else (baseCurrent + 2)%Z in
  let topCurrent := (topStart + 2 * i)%Z in
  let topNext := if (i =? numSides - 1)%Z then topStart else (topCurrent + 2)%Z in
  match lookup vs (baseCurrent - 1), lookup vs (baseNext - 1),
        lookup vs (topNext - 1) with
  | Some v1, Some v2, Some v3 =>
      let v12 := V3.subtract v2 v1 in
      let v23 := V3.subtract v3 v2 in
      Some (V3.normalize (V3.cross v12 v23))
  | _, _, _ => None
  end.

Definition normals_step (numSides : Z) (vs : list vec3)
  (acc : option (list vec3 * list Z)) (i : Z) : option (list vec3 * list Z) :=
  match acc with
  | None => None
  | Some (ns, sideNormalIdx) =>
      match side_normal numSides vs i with
      | None => None
      | Some normal =>
          let ns' := ns ++ [normal] in
          Some (ns', sideNormalIdx ++ [Z.of_nat (List.length ns')])
      end
  end.

(** [normals(numSides, vertices)]. *)
Definition normals (numSides : Z) (vs : list vec3) : option (list vec3 * Z * Z * list Z) :=
  let ns0 := [mk3 0 (-1) 0] in
  let baseNormalIdx := Z.of_nat (List.length ns0) in
  let ns1 := ns0 ++ [mk3 0 1 0] in
  let topNormalIdx := Z.of_nat (List.length ns1) in
  match fold_left (normals_step numSides vs) (seqZ numSides) (Some (ns1, [])) with
  | None => None
  | Some (ns, sideNormalIdx) => Some (ns, baseNormalIdx, topNormalIdx, sideNormalIdx)
  end.

(** The single-level script's [createOBJ] has the same body as the
    multi-level one (header, vertex, normal and face counts, [v], [vn] and [f]
    lines, side normal [sideNormalIdx[Math.floor(i / 2)]]): [createOBJ]. *)

(** The body of [main] after [getInputs]. *)
Definition generate (numSides : Z) (height baseRadius topRadius : R) : outcome :=
  let verts := vertices numSides height baseRadius topRadius in
  let '(facesBase, facesTop, facesSides) := faces numSides in
  match normals numSides verts with
  | None => Crash
  | Some (norms, baseNormalIdx, topNormalIdx, sideNormalIdx) =>
      Written (createOBJ verts norms facesBase facesTop facesSides
                 baseNormalIdx topNormalIdx sideNormalIdx)
  end.

Section CommandLine.

Variable parseInt : string -> Z.
Variable parseFloat : string -> R.

(** [getInputs()] of the single-level script: returns
    [{ numSides, height, baseRadius, topRadius }]; [None] is [process.exit(1)]. *)
Definition getInputs (args : list string) : option (Z * R * R * R) :=
  let numSides := arg_or parseInt args 0 8%Z in
  let height := arg_or parseFloat args 1 6 in
  let baseRadius := arg_or parseFloat args 2 1 in
  let topRadius := arg_or parseFloat args 3 (8 / 10) in
  if (numSides <? 3)%Z || (36 <? numSides)%Z then None
  else if num_leb height 0 || num_leb baseRadius 0 || num_leb topRadius 0 then None
  else Some (numSides, height, baseRadius, topRadius).

(** [main()] of the single-level script. *)
Definition main (args : list string) : outcome :=
  match getInputs args with
  | None => Exit1
  | Some (numSides, height, baseRadius, topRadius) =>
      generate numSides height baseRadius topRadius
  end.

End CommandLine.

End Single.

(** ** WebGL face drawing: polygon data *)

(** The arrays object built by [generateData]: the [data] arrays of
    [a_position] (2 components per vertex), [a_color] (4 components per
    vertex) and [indices] (3 vertex indices per triangle). The
    [numComponents] fields are the constants 2, 4 and 3. *)
Record arrays := mkArrays {
  a_position : list R;
  a_color : list R;
  indices : list Z
}.

(** One iteration of the [for (let s=0; s<sides; s++)] loop of
    [generateData]: push the rim vertex, its white color and the triangle
    [0, s+1, s+2] (closed back to vertex 1 on the last side). *)
Definition generateData_step (sides : Z) (radius centerX centerY angleStep : R)
  (arr : arrays) (s : Z) : arrays :=
  let angle := angleStep * IZR s in
  let x := centerX + cos angle * radius in
  let y := centerY + sin angle * radius in
  mkArrays (a_position arr ++ [x; y])
           (a_color arr ++ [1; 1; 1; 1])
           (indices arr ++ [0%Z; (s + 1)%Z; if (s + 2 <=? sides)%Z then (s + 2)%Z else 1%Z]).

(** [generateData(sides, radius, centerX, centerY)] for an integer number of
    sides: the center vertex (white) followed by the loop; the
    [console.log] has no effect on the result. *)
Definition generateData (sides : Z) (radius centerX centerY : R) : arrays :=
  let arr0 := mkArrays [centerX; centerY] [1; 1; 1; 1] [] in
  let angleStep := 2 * PI / IZR sides in
  fold_left (generateData_step sides radius centerX centerY angleStep) (seqZ sides) arr0.

(** ** Vertex numbering used by the spec *)

(** The 1-based OBJ index of sample [i] of ring [k] ([ring_k[i]] in the spec):
    the vertex stored at 0-based position [2 + k*N + i]. *)
Definition ring_index (numSides k i : Z) : Z := (3 + k * numSides + i)%Z.

(** The outward radial direction of a lateral triangle whose lower edge runs
    from [v1] to [v2] (two samples of the same ring): the horizontal part of
    [v1 + v2], pointing from the axis towards the middle of that edge. *)
Definition radialOutward (v1 v2 : vec3) : vec3 :=
  let '(x1, _, z1) := v1 in
  let '(x2, _, z2) := v2 in
  mk3 (x1 + x2) 0 (z1 + z2).

(** * Proofs *)

(** ** Facts about the ring builder *)

Lemma num_eqb_true (a b : R) : num_eqb a b = true <-> a = b.
Proof. unfold num_eqb; destruct (Req_EM_T a b); split; congruence. Qed.

Lemma num_eqb_refl (a : R) : num_eqb a a = true.
Proof. apply num_eqb_true; reflexivity. Qed.

Lemma num_eqb_neq (a b : R) : a <> b -> num_eqb a b = false.
Proof. unfold num_eqb; destruct (Req_EM_T a b); congruence. Qed.

Lemma isUniqueRing_spec (rings : list ring) (y r : R) :
  isUniqueRing rings y r = true <-> ~ In (y, r) (map ring_pair rings).
Proof.
  unfold isUniqueRing. rewrite forallb_forall. split.
  - intros H Hin. apply in_map_iff in Hin as [[ry rr] [Heq Hin]].
    unfold ring_pair in Heq; simpl in Heq; injection Heq as -> ->.
    specialize (H _ Hin); simpl in H.
    rewrite !num_eqb_refl in H; discriminate.
  - intros H [ry rr] Hin. simpl.
    destruct (num_eqb ry y) eqn:E1, (num_eqb rr r) eqn:E2; try reflexivity.
    apply num_eqb_true in E1, E2; subst.
    exfalso; apply H. apply in_map_iff; exists (mkRing y r); auto.
Qed.

Lemma existsb_ring_spec (rings : list ring) (y r : R) :
  existsb (fun ring => num_eqb (ring_y ring) y && num_eqb (ring_r ring) r) rings
  = negb (isUniqueRing rings y r).
Proof.
  unfold isUniqueRing. induction rings as [|a l IH]; simpl; [reflexivity|].
  rewrite IH. destruct (_ && _); reflexivity.
Qed.

(** Appending [x] to a strongly sorted list keeps it sorted when every element is
    below [x]. *)
Lemma StronglySorted_app_single {A} (le : A -> A -> Prop) (l : list A) (x : A) :
  StronglySorted le l -> Forall (fun a => le a x) l -> StronglySorted le (l ++ [x]).
Proof.
  induction l as [|a l IH]; simpl; intros Hs Hf.
  - constructor; constructor.
  - inversion Hs; subst. inversion Hf; subst. constructor.
    + apply IH; assumption.
    + apply Forall_app; split; [assumption|]. constructor; [assumption|constructor].
Qed.

Lemma NoDup_app_single {A} (l : list A) (x : A) :
  NoDup l -> ~ In x l -> NoDup (l ++ [x]).
Proof.
  intros Hn Hx. apply NoDup_app; [assumption|constructor; [intros []|constructor]|].
  intros a Ha [<-|[]]; contradiction.
Qed.

(** The loop invariant of [buildRings]: the pairs are pairwise distinct, the
    elevations are sorted and all lie at or below the running elevation. *)
Definition rings_inv (rings : list ring) (currentY : R) : Prop :=
  NoDup (map ring_pair rings) /\
  StronglySorted Rle (map ring_y rings) /\
  Forall (fun y => y <= currentY) (map ring_y rings).

Lemma rings_inv_push (rings : list ring) (y y' r : R) :
  rings_inv rings y -> y <= y' -> ~ In (y', r) (map ring_pair rings) ->
  rings_inv (rings ++ [mkRing y' r]) y'.
Proof.
  intros [Hn [Hs Hf]] Hle Hnot. unfold rings_inv.
  rewrite !map_app; simpl. repeat split.
  - apply NoDup_app_single; assumption.
  - apply StronglySorted_app_single; [assumption|].
    eapply Forall_impl; [|exact Hf]; intros; simpl; lra.
  - apply Forall_app; split; [|constructor; [apply Rle_refl|constructor]].
    eapply Forall_impl; [|exact Hf]; intros; simpl; lra.
Qed.

Lemma rings_inv_mono (rings : list ring) (y y' : R) :
  rings_inv rings y -> y <= y' -> rings_inv rings y'.
Proof.
  intros [Hn [Hs Hf]] Hle. repeat split; try assumption.
  eapply Forall_impl; [|exact Hf]; intros; simpl; lra.
Qed.

Lemma buildRings_loop_inv (levels : list level) (rings : list ring) (currentY : R) :
  Forall (fun l => 0 < height l) levels ->
  rings_inv rings currentY ->
  exists y, rings_inv (buildRings_loop levels rings currentY) y.
Proof.
  revert rings currentY.
  induction levels as [|l ls IH]; simpl; intros rings currentY Hpos Hinv.
  - exists currentY; assumption.
  - inversion Hpos as [|? ? Hh Hrest]; subst.
    apply IH; [assumption|].
    set (rings1 := if isUniqueRing rings currentY (baseRadius l)
                   then rings ++ [mkRing currentY (baseRadius l)] else rings).
    assert (H1 : rings_inv rings1 currentY).
    { unfold rings1. destruct (isUniqueRing _ _ _) eqn:E; [|assumption].
      apply rings_inv_push with (y := currentY); [assumption|apply Rle_refl|].
      apply isUniqueRing_spec; assumption. }
    assert (H1' : rings_inv rings1 (currentY + height l))
      by (eapply rings_inv_mono; [exact H1|lra]).
    rewrite existsb_ring_spec, Bool.negb_involutive.
    destruct (isUniqueRing rings1 _ _) eqn:E; [|assumption].
    apply rings_inv_push with (y := currentY + height l); [assumption|apply Rle_refl|].
    apply isUniqueRing_spec; assumption.
Qed.

Lemma buildRings_single (l : level) :
  0 < height l ->
  buildRings [l] = [mkRing 0 (baseRadius l); mkRing (0 + height l) (topRadius l)].
Proof.
  intros Hh. unfold buildRings; simpl.
  rewrite (num_eqb_neq 0 (0 + height l)) by lra. reflexivity.
Qed.

Lemma buildRings_flush_pair (l1 l2 : level) :
  0 < height l1 -> 0 < height l2 -> topRadius l1 = baseRadius l2 ->
  buildRings [l1; l2] =
  [mkRing 0 (baseRadius l1); mkRing (0 + height l1) (topRadius l1);
   mkRing (0 + height l1 + height l2) (topRadius l2)].
Proof.
  intros H1 H2 Hflush. unfold buildRings; simpl.
  assert (E1 : num_eqb 0 (0 + height l1) = false) by (apply num_eqb_neq; lra).
  assert (E2 : num_eqb 0 (0 + height l1 + height l2) = false)
    by (apply num_eqb_neq; lra).
  assert (E3 : num_eqb (0 + height l1) (0 + height l1 + height l2) = false)
    by (apply num_eqb_neq; lra).
  rewrite E1; simpl. rewrite Hflush, !num_eqb_refl; simpl.
  rewrite ?E1, ?E2, ?E3; simpl. rewrite E2, E3. reflexivity.
Qed.

(** C1: for positive heights, [buildRings] never holds two rings with the same
    (elevation, radius) pair and lists the elevations in non-decreasing order;
    a single level gives exactly 2 rings, and two stacked levels whose joint
    is flush (top radius of the first = base radius of the second) give
    exactly 3 rings. *)
Theorem buildRings_spec (levels : list level)
  (Hpos : Forall (fun l => 0 < height l) levels) :
  NoDup (map ring_pair (buildRings levels)) /\
  StronglySorted Rle (map ring_y (buildRings levels)) /\
  (forall l, levels = [l] -> length (buildRings levels) = 2%nat) /\
  (forall l1 l2, levels = [l1; l2] -> topRadius l1 = baseRadius l2 ->
     length (buildRings levels) = 3%nat).
Proof.
  destruct (buildRings_loop_inv levels [] 0 Hpos) as [y [Hn [Hs _]]].
  { repeat split; simpl; constructor. }
  split; [exact Hn|]. split; [exact Hs|]. split.
  - intros l ->. inversion Hpos; subst.
    rewrite buildRings_single by assumption. reflexivity.
  - intros l1 l2 -> Hflush. inversion Hpos as [|? ? H1 Hr]; subst.
    inversion Hr; subst.
    rewrite buildRings_flush_pair by assumption. reflexivity.
Qed.

Lemma buildRings_spec_witness :
  Forall (fun l => 0 < height l) [mkLevel 1 2 1; mkLevel 1 1 1] /\
  length (buildRings [mkLevel 1 2 1; mkLevel 1 1 1]) = 3%nat.
Proof.
  assert (H : Forall (fun l => 0 < height l) [mkLevel 1 2 1; mkLevel 1 1 1])
    by (repeat constructor; simpl; lra).
  split; [exact H|].
  destruct (buildRings_spec _ H) as (_ & _ & _ & H3).
  apply (H3 (mkLevel 1 2 1) (mkLevel 1 1 1)); reflexivity.
Defined.

(** ** List and loop-index facts *)

Lemma length_seqZ (n : Z) : List.length (seqZ n) = Z.to_nat n.
Proof. unfold seqZ. rewrite length_map, length_seq. reflexivity. Qed.

Lemma nth_error_seqZ (n : Z) (i : nat) :
  (i < Z.to_nat n)%nat -> nth_error (seqZ n) i = Some (Z.of_nat i).
Proof.
  intros Hi. unfold seqZ. rewrite nth_error_map, nth_error_seq.
  apply Nat.ltb_lt in Hi. rewrite Hi. reflexivity.
Qed.

Lemma In_seqZ (n i : Z) : In i (seqZ n) <-> (0 <= i < n)%Z.
Proof.
  unfold seqZ. rewrite in_map_iff. split.
  - intros [k [<- Hk]]. apply in_seq in Hk. lia.
  - intros Hi. exists (Z.to_nat i). split; [lia|]. apply in_seq. lia.
Qed.

Lemma length_flat_map_const {A B} (f : A -> list B) (m : nat) (l : list A) :
  (forall a, List.length (f a) = m) -> List.length (flat_map f l) = (List.length l * m)%nat.
Proof.
  intros Hf. induction l as [|a l IH]; simpl; [reflexivity|].
  rewrite length_app, Hf, IH. reflexivity.
Qed.

(** Reading block [k], offset [r] of a concatenation of blocks of length [m]. *)
Lemma nth_error_flat_map_const {A B} (f : A -> list B) (m : nat) (l : list A)
  (k r : nat) (x : A) :
  (forall a, List.length (f a) = m) -> nth_error l k = Some x -> (r < m)%nat ->
  nth_error (flat_map f l) (k * m + r) = nth_error (f x) r.
Proof.
  intros Hf. revert k. induction l as [|a l IH]; intros k Hk Hr.
  - destruct k; discriminate.
  - destruct k as [|k]; simpl in *.
    + injection Hk as ->. apply nth_error_app1. rewrite Hf. exact Hr.
    + rewrite nth_error_app2 by (rewrite Hf; lia).
      rewrite Hf. replace (m + k * m + r - m)%nat with (k * m + r)%nat by lia.
      apply IH; assumption.
Qed.

Lemma last_ring_last (rings : list ring) (d : ring) :
  rings <> [] -> last_ring rings = Some (last rings d).
Proof.
  induction rings as [|a l IH]; intros Hne; [congruence|].
  destruct l as [|b l]; [reflexivity|].
  simpl in *. apply IH. discriminate.
Qed.

Lemma buildRings_loop_app (levels : list level) (rings : list ring) (y : R) :
  exists extra, buildRings_loop levels rings y = rings ++ extra.
Proof.
  revert rings y. induction levels as [|l ls IH]; intros rings y; simpl.
  - exists []. rewrite app_nil_r. reflexivity.
  - match goal with |- exists e, buildRings_loop ls ?r ?y' = _ => destruct (IH r y') as [e He] end.
    rewrite He.
    destruct (isUniqueRing rings _ _);
      destruct (negb (existsb _ _));
      eexists; rewrite <- ?app_assoc; reflexivity.
Qed.

(** The first ring is always the base ring of the first level at elevation 0. *)
Lemma buildRings_cons (l : level) (ls : list level) :
  exists rest, buildRings (l :: ls) = mkRing 0 (baseRadius l) :: rest.
Proof.
  unfold buildRings; simpl.
  match goal with |- exists e, buildRings_loop ls ?r ?y' = _ =>
    destruct (buildRings_loop_app ls r y') as [e He] end.
  rewrite He. destruct (negb _); eexists; reflexivity.
Qed.

Lemma buildRings_nonempty (levels : list level) :
  levels <> [] -> buildRings levels <> [].
Proof.
  destruct levels as [|l ls]; [congruence|]. intros _.
  destruct (buildRings_cons l ls) as [rest ->]. discriminate.
Qed.

Lemma length_ring_vertices (angleStep : R) (numSides : Z) (rg : ring) :
  List.length (ring_vertices angleStep numSides rg) = Z.to_nat numSides.
Proof. unfold ring_vertices. rewrite length_map. apply length_seqZ. Qed.

(** C2: for 3 <= N <= 36 and a non-empty level list with ring sequence
    [rings = buildRings levels] (R rings), [vertices] gives 2 + R*N vertices:
    vertex 0 is (0,0,0), vertex 1 is (0, top elevation, 0), and vertex
    2 + k*N + i is (cos(i*2PI/N)*r_k, y_k, sin(i*2PI/N)*r_k). *)
Theorem vertices_layout (numSides : Z) (levels : list level)
  (HN : (3 <= numSides <= 36)%Z) (Hne : levels <> []) :
  let rings := buildRings levels in
  exists vs,
    vertices numSides levels = Some (vs, rings) /\
    List.length vs = (2 + List.length rings * Z.to_nat numSides)%nat /\
    nth_error vs 0 = Some (mk3 0 0 0) /\
    nth_error vs 1 = Some (mk3 0 (ring_y (last rings (mkRing 0 0))) 0) /\
    (forall k i rg, nth_error rings k = Some rg -> (i < Z.to_nat numSides)%nat ->
       nth_error vs (2 + k * Z.to_nat numSides + i) =
       Some (mk3 (cos (INR i * (2 * PI / IZR numSides)) * ring_r rg) (ring_y rg)
                 (sin (INR i * (2 * PI / IZR numSides)) * ring_r rg))).
Proof.
  intros rings. unfold vertices. fold rings.
  rewrite (last_ring_last rings (mkRing 0 0)) by (apply buildRings_nonempty; assumption).
  eexists. split; [reflexivity|].
  split; [|split; [reflexivity|split; [reflexivity|]]].
  - simpl. do 2 f_equal. apply length_flat_map_const. apply length_ring_vertices.
  - intros k i rg Hk Hi. simpl.
    rewrite (nth_error_flat_map_const _ (Z.to_nat numSides) rings k i rg)
      by (try apply length_ring_vertices; assumption).
    unfold ring_vertices. rewrite nth_error_map, nth_error_seqZ by assumption.
    simpl. rewrite <- INR_IZR_INZ. reflexivity.
Qed.

Lemma vertices_layout_witness :
  (3 <= 4 <= 36)%Z /\ [mkLevel 1 1 1] <> [] /\
  exists vs, vertices 4 [mkLevel 1 1 1] = Some (vs, buildRings [mkLevel 1 1 1]) /\
             List.length vs = (2 + List.length (buildRings [mkLevel 1 1 1]) * 4)%nat.
Proof.
  split; [lia|]. split; [discriminate|].
  destruct (vertices_layout 4 [mkLevel 1 1 1]) as (vs & H1 & H2 & _);
    [lia|discriminate|].
  exists vs. split; [exact H1|exact H2].
Defined.

Lemma length_side_faces (numSides lower upper i : Z) :
  List.length (side_faces numSides lower upper i) = 2%nat.
Proof. reflexivity. Qed.

Lemma rem_mod (a n : Z) : (0 <= a)%Z -> (0 < n)%Z -> Z.rem a n = (a mod n)%Z.
Proof. intros; apply Z.rem_mod_nonneg; lia. Qed.

(** The lateral faces: block [j] of [2N] faces, pair [i] within the block. *)
Lemma length_facesSides (numSides : Z) (rings : list ring) :
  (1 <= List.length rings)%nat ->
  List.length (snd (faces numSides rings))
  = (2 * Z.to_nat numSides * (List.length rings - 1))%nat.
Proof.
  intros HR. unfold faces. cbv zeta. simpl snd.
  rewrite (length_flat_map_const _ (Z.to_nat numSides * 2)).
  - rewrite length_seqZ. lia.
  - intros j. rewrite (length_flat_map_const _ 2); [|intros; reflexivity].
    rewrite length_seqZ. reflexivity.
Qed.

Lemma facesSides_nth (numSides : Z) (rings : list ring) (j i : nat) :
  (0 < numSides)%Z -> (j < List.length rings - 1)%nat -> (i < Z.to_nat numSides)%nat ->
  let n := Z.to_nat numSides in
  let lc := ring_index numSides (Z.of_nat j) (Z.of_nat i) in
  let ln := ring_index numSides (Z.of_nat j) ((Z.of_nat i + 1) mod numSides) in
  let uc := ring_index numSides (Z.of_nat j + 1) (Z.of_nat i) in
  let un := ring_index numSides (Z.of_nat j + 1) ((Z.of_nat i + 1) mod numSides) in
  nth_error (snd (faces numSides rings)) (2 * (j * n + i)) = Some (lc, ln, un) /\
  nth_error (snd (faces numSides rings)) (2 * (j * n + i) + 1) = Some (lc, un, uc).
Proof.
  intros HN Hj Hi n. unfold faces. cbv zeta. simpl snd.
  assert (Hblk : forall j, List.length
            (flat_map (side_faces numSides j (j + 1)) (seqZ numSides)) = (n * 2)%nat).
  { intros j'. rewrite (length_flat_map_const _ 2); [|intros; reflexivity].
    rewrite length_seqZ. reflexivity. }
  split.
  - replace (2 * (j * n + i))%nat with (j * (n * 2) + (i * 2 + 0))%nat by lia.
    rewrite (nth_error_flat_map_const _ (n * 2) _ j _ (Z.of_nat j)) by
      (try apply Hblk; try apply nth_error_seqZ; lia).
    rewrite (nth_error_flat_map_const _ 2 _ i _ (Z.of_nat i)) by
      (try apply length_side_faces; try apply nth_error_seqZ; lia).
    unfold side_faces, ring_index; simpl. rewrite rem_mod by lia. reflexivity.
  - replace (2 * (j * n + i) + 1)%nat with (j * (n * 2) + (i * 2 + 1))%nat by lia.
    rewrite (nth_error_flat_map_const _ (n * 2) _ j _ (Z.of_nat j)) by
      (try apply Hblk; try apply nth_error_seqZ; lia).
    rewrite (nth_error_flat_map_const _ 2 _ i _ (Z.of_nat i)) by
      (try apply length_side_faces; try apply nth_error_seqZ; lia).
    unfold side_faces, ring_index; simpl. rewrite rem_mod by lia. reflexivity.
Qed.

(** C3: for 3 <= N <= 36 and R >= 2 rings, [faces] gives N base-cap
    triangles (centerBase, ring0[(i+1) mod N], ring0[i]), N top-cap
    triangles (centerTop, ringLast[i], ringLast[(i+1) mod N]) and, for each
    adjacent ring pair j and sample i, the two lateral triangles
    (lowerCurrent, lowerNext, upperNext) and (lowerCurrent, upperNext,
    upperCurrent): 2N + 2N(R-1) faces in all. *)
Theorem faces_layout (numSides : Z) (rings : list ring)
  (HN : (3 <= numSides <= 36)%Z) (HR : (2 <= List.length rings)%nat) :
  let n := Z.to_nat numSides in
  let Rn := List.length rings in
  let top := (Z.of_nat Rn - 1)%Z in
  let '(facesBase, facesTop, facesSides) := faces numSides rings in
  List.length facesBase = n /\
  List.length facesTop = n /\
  List.length facesSides = (2 * n * (Rn - 1))%nat /\
  (List.length facesBase + List.length facesTop + List.length facesSides
     = 2 * n + 2 * n * (Rn - 1))%nat /\
  (forall i, (i < n)%nat ->
     nth_error facesBase i =
     Some (1%Z, ring_index numSides 0 ((Z.of_nat i + 1) mod numSides),
           ring_index numSides 0 (Z.of_nat i))) /\
  (forall i, (i < n)%nat ->
     nth_error facesTop i =
     Some (2%Z, ring_index numSides top (Z.of_nat i),
           ring_index numSides top ((Z.of_nat i + 1) mod numSides))) /\
  (forall j i, (j < Rn - 1)%nat -> (i < n)%nat ->
     let lc := ring_index numSides (Z.of_nat j) (Z.of_nat i) in
     let ln := ring_index numSides (Z.of_nat j) ((Z.of_nat i + 1) mod numSides) in
     let uc := ring_index numSides (Z.of_nat j + 1) (Z.of_nat i) in
     let un := ring_index numSides (Z.of_nat j + 1) ((Z.of_nat i + 1) mod numSides) in
     nth_error facesSides (2 * (j * n + i)) = Some (lc, ln, un) /\
     nth_error facesSides (2 * (j * n + i) + 1) = Some (lc, un, uc)).
Proof.
  intros n Rn top.
  pose proof (length_facesSides numSides rings ltac:(lia)) as Hlen.
  pose proof (facesSides_nth numSides rings) as Hnth.
  unfold faces in Hlen, Hnth |- *. fold Rn in Hlen, Hnth |- *. cbv zeta in Hlen, Hnth |- *.
  simpl snd in Hlen, Hnth.
  refine (conj _ (conj _ (conj _ (conj _ (conj _ (conj _ _)))))).
  - rewrite length_map, length_seqZ. reflexivity.
  - rewrite length_map, length_seqZ. reflexivity.
  - rewrite Hlen. reflexivity.
  - rewrite !length_map, length_seqZ, Hlen. lia.
  - intros i Hi. rewrite nth_error_map, nth_error_seqZ by assumption. simpl.
    unfold ring_index. rewrite rem_mod by lia. do 3 f_equal; lia.
  - intros i Hi. rewrite nth_error_map, nth_error_seqZ by assumption. simpl.
    unfold ring_index, top. rewrite rem_mod by lia. reflexivity.
  - intros j i Hj Hi. apply Hnth; lia.
Qed.

Lemma faces_layout_witness :
  (3 <= 4 <= 36)%Z /\ (2 <= List.length [mkRing 0 2; mkRing 1 1])%nat /\
  let '(fb, ft, fs) := faces 4 [mkRing 0 2; mkRing 1 1] in
  (List.length fb + List.length ft + List.length fs = 2 * 4 + 2 * 4 * (2 - 1))%nat.
Proof.
  split; [lia|]. split; [simpl; lia|].
  pose proof (faces_layout 4 [mkRing 0 2; mkRing 1 1]) as H.
  specialize (H ltac:(lia) ltac:(simpl; lia)).
  destruct (faces 4 [mkRing 0 2; mkRing 1 1]) as [[fb ft] fs].
  destruct H as (_ & _ & _ & H & _). exact H.
Defined.

(** ** Facts about the normal generator and the serializer *)

Definition quad_normal (numSides : Z) (vs : list vec3) (ji : Z * Z) : option vec3 :=
  side_normal numSides vs (fst ji) (fst ji + 1) (snd ji).

(** Running the loops of [normals] over quads whose normals all exist. *)
Lemma normals_fold (numSides : Z) (vs : list vec3) (L : list (Z * Z))
  (ns : list vec3) (idx : list Z) :
  (forall ji, In ji L -> quad_normal numSides vs ji <> None) ->
  exists out,
    fold_left (normals_step numSides vs) L (Some (ns, idx)) =
    Some (ns ++ out,
          idx ++ map (fun k => Z.of_nat (List.length ns + S k)) (seq 0 (List.length L))) /\
    map Some out = map (quad_normal numSides vs) L.
Proof.
  revert ns idx. induction L as [|[j i] L IH]; intros ns idx HL; simpl.
  - exists []. rewrite !app_nil_r. split; reflexivity.
  - destruct (side_normal numSides vs j (j + 1) i) as [n|] eqn:En.
    2:{ exfalso. apply (HL (j, i)); [left; reflexivity|exact En]. }
    destruct (IH (ns ++ [n]) (idx ++ [Z.of_nat (List.length (ns ++ [n]))]))
      as [out [Hf Hm]].
    { intros ji Hin. apply HL. right. exact Hin. }
    exists (n :: out). split.
    + rewrite Hf. rewrite <- !app_assoc. simpl.
      rewrite <- seq_shift, map_map, length_app. simpl.
      replace (List.length ns + 1)%nat with (S (List.length ns + 0)) by lia.
      erewrite map_ext; [reflexivity|]. intros k. simpl. f_equal. lia.
    + simpl. rewrite Hm. unfold quad_normal at 2; simpl. rewrite En. reflexivity.
Qed.

Lemma nth_error_combine_seq {A} (l : list A) (s p : nat) :
  nth_error (combine (seq s (List.length l)) l) p =
  option_map (fun x => (s + p, x)%nat) (nth_error l p).
Proof.
  revert s p. induction l as [|a l IH]; intros s p; simpl.
  - destruct p; reflexivity.
  - destruct p as [|p]; simpl.
    + rewrite Nat.add_0_r. reflexivity.
    + rewrite IH. destruct (nth_error l p); simpl; [|reflexivity].
      do 3 f_equal. lia.
Qed.

Lemma nth_error_side_lines (fs : list face) (idx : list Z) (p : nat) :
  nth_error (side_lines fs idx) p =
  option_map (fun f => face_line f (nth_error idx (Nat.div p 2))) (nth_error fs p).
Proof.
  unfold side_lines. rewrite nth_error_map, nth_error_combine_seq.
  destruct (nth_error fs p); reflexivity.
Qed.

Lemma length_side_lines (fs : list face) (idx : list Z) :
  List.length (side_lines fs idx) = List.length fs.
Proof.
  unfold side_lines. rewrite length_map, length_combine, length_seq. lia.
Qed.

Lemma lookup_in_range (vs : list vec3) (k : Z) :
  (0 <= k)%Z -> (Z.to_nat k < List.length vs)%nat -> exists v, lookup vs k = Some v.
Proof.
  intros H0 Hk. unfold lookup. destruct (k <? 0)%Z eqn:E; [lia|].
  destruct (nth_error vs (Z.to_nat k)) as [v|] eqn:Ev; [exists v; reflexivity|].
  apply nth_error_None in Ev. lia.
Qed.

Lemma quad_indices_nth (numSides : Z) (Rn j i : nat) :
  (0 <= numSides)%Z -> (j < Rn - 1)%nat -> (i < Z.to_nat numSides)%nat ->
  nth_error (quad_indices numSides (Z.of_nat Rn)) (j * Z.to_nat numSides + i) =
  Some (Z.of_nat j, Z.of_nat i).
Proof.
  intros HN Hj Hi. unfold quad_indices.
  rewrite (nth_error_flat_map_const _ (Z.to_nat numSides) _ j _ (Z.of_nat j)).
  - rewrite nth_error_map, nth_error_seqZ by assumption. reflexivity.
  - intros a. rewrite length_map, length_seqZ. reflexivity.
  - apply nth_error_seqZ. lia.
  - assumption.
Qed.

Lemma length_quad_indices (numSides : Z) (Rn : nat) :
  (1 <= Rn)%nat ->
  List.length (quad_indices numSides (Z.of_nat Rn)) = ((Rn - 1) * Z.to_nat numSides)%nat.
Proof.
  intros HR. unfold quad_indices.
  rewrite (length_flat_map_const _ (Z.to_nat numSides)).
  - rewrite length_seqZ. f_equal. lia.
  - intros a. rewrite length_map, length_seqZ. reflexivity.
Qed.

Lemma In_quad_indices (numSides Rn j i : Z) :
  In (j, i) (quad_indices numSides Rn) -> (0 <= j < Rn - 1)%Z /\ (0 <= i < numSides)%Z.
Proof.
  unfold quad_indices. rewrite in_flat_map. intros [j' [Hj Hin]].
  apply in_map_iff in Hin as [i' [Heq Hi]]. injection Heq as -> ->.
  apply In_seqZ in Hj, Hi. lia.
Qed.

(** Every lateral normal exists when the vertex buffer holds 2 + R*N vertices. *)
Lemma quad_normal_exists (numSides : Z) (vs : list vec3) (Rn : nat) (j i : Z) :
  (0 < numSides)%Z -> List.length vs = (2 + Rn * Z.to_nat numSides)%nat ->
  (0 <= j < Z.of_nat Rn - 1)%Z -> (0 <= i < numSides)%Z ->
  quad_normal numSides vs (j, i) <> None.
Proof.
  intros HN Hvs Hj Hi. unfold quad_normal, side_normal. simpl fst; simpl snd. cbv zeta.
  assert (Hr : (0 <= Z.rem (i + 1) numSides < numSides)%Z)
    by (rewrite rem_mod by lia; apply Z.mod_pos_bound; lia).
  assert (Hb : (Z.of_nat Rn * numSides = Z.of_nat (Rn * Z.to_nat numSides))%Z) by lia.
  destruct (lookup_in_range vs (3 + j * numSides + i - 1)%Z) as [v1 ->]; [nia|nia|].
  destruct (lookup_in_range vs (3 + j * numSides + Z.rem (i + 1) numSides - 1)%Z)
    as [v2 ->]; [nia|nia|].
  destruct (lookup_in_range vs (3 + (j + 1) * numSides + Z.rem (i + 1) numSides - 1)%Z)
    as [v3 ->]; [nia|nia|].
  discriminate.
Qed.

Lemma div2_double (q : nat) : Nat.div (2 * q) 2 = q.
Proof. symmetry. apply (Nat.div_unique _ _ _ 0); lia. Qed.

Lemma div2_double_succ (q : nat) : Nat.div (2 * q + 1) 2 = q.
Proof. symmetry. apply (Nat.div_unique _ _ _ 1); lia. Qed.

(** The result of [normals] on a vertex buffer of 2 + R*N vertices. *)
Lemma normals_result (numSides : Z) (vs : list vec3) (rings : list ring) :
  (0 < numSides)%Z -> (1 <= List.length rings)%nat ->
  List.length vs = (2 + List.length rings * Z.to_nat numSides)%nat ->
  let L := quad_indices numSides (Z.of_nat (List.length rings)) in
  exists out,
    normals numSides vs rings =
      Some ([mk3 0 (-1) 0; mk3 0 1 0] ++ out, 1%Z, 2%Z,
            map (fun k => Z.of_nat (2 + S k)) (seq 0 (List.length L))) /\
    map Some out = map (quad_normal numSides vs) L.
Proof.
  intros HN HR Hvs L.
  destruct (normals_fold numSides vs L ([mk3 0 (-1) 0] ++ [mk3 0 1 0]) []) as [out [Hf Hm]].
  { intros [j i] Hin. apply In_quad_indices in Hin.
    apply (quad_normal_exists numSides vs (List.length rings)); tauto. }
  exists out. split; [|exact Hm].
  unfold normals. cbv zeta. fold L. rewrite Hf. reflexivity.
Qed.

(** C4: for 3 <= N <= 36, R >= 2 rings and any vertex buffer of 2 + R*N
    vertices, [normals] gives 2 + (R-1)*N normals, the first two being the
    constants (0,-1,0) and (0,1,0); normal 2 + q (0-based) is computed from the
    first triangle of lateral quad q, and in the emitted face list both
    triangles of quad q carry the same normal index 3 + q (1-based). *)
Theorem normals_layout (numSides : Z) (vs : list vec3) (rings : list ring)
  (HN : (3 <= numSides <= 36)%Z) (HR : (2 <= List.length rings)%nat)
  (Hvs : List.length vs = (2 + List.length rings * Z.to_nat numSides)%nat) :
  let n := Z.to_nat numSides in
  let Rn := List.length rings in
  let facesSides := snd (faces numSides rings) in
  exists ns sideNormalIdx,
    normals numSides vs rings = Some (ns, 1%Z, 2%Z, sideNormalIdx) /\
    List.length ns = (2 + (Rn - 1) * n)%nat /\
    nth_error ns 0 = Some (mk3 0 (-1) 0) /\
    nth_error ns 1 = Some (mk3 0 1 0) /\
    (forall j i, (j < Rn - 1)%nat -> (i < n)%nat ->
       let q := (j * n + i)%nat in
       exists a b c v1 v2 v3,
         nth_error facesSides (2 * q) = Some (a, b, c) /\
         lookup vs (a - 1) = Some v1 /\ lookup vs (b - 1) = Some v2 /\
         lookup vs (c - 1) = Some v3 /\
         nth_error ns (2 + q) =
           Some (V3.normalize (V3.cross (V3.subtract v2 v1) (V3.subtract v3 v1)))) /\
    (forall q, (q < (Rn - 1) * n)%nat ->
       exists f1 f2,
         nth_error facesSides (2 * q) = Some f1 /\
         nth_error facesSides (2 * q + 1) = Some f2 /\
         nth_error (side_lines facesSides sideNormalIdx) (2 * q) =
           Some (face_line f1 (Some (Z.of_nat (3 + q)))) /\
         nth_error (side_lines facesSides sideNormalIdx) (2 * q + 1) =
           Some (face_line f2 (Some (Z.of_nat (3 + q))))).
Proof.
  intros n Rn facesSides.
  destruct (normals_result numSides vs rings) as [out [Hres Hm]]; [lia|lia|exact Hvs|].
  set (L := quad_indices numSides (Z.of_nat (List.length rings))) in *.
  assert (HL : List.length L = ((Rn - 1) * n)%nat) by (apply length_quad_indices; lia).
  assert (Hout : List.length out = List.length L).
  { rewrite <- (length_map Some out), Hm, length_map. reflexivity. }
  exists ([mk3 0 (-1) 0; mk3 0 1 0] ++ out).
  exists (map (fun k => Z.of_nat (2 + S k)) (seq 0 (List.length L))).
  refine (conj Hres (conj _ (conj eq_refl (conj eq_refl (conj _ _))))).
  - rewrite length_app, Hout, HL. reflexivity.
  - intros j i Hj Hi q.
    destruct (facesSides_nth numSides rings j i) as [Hf1 _]; [lia|lia|lia|].
    set (a := ring_index numSides (Z.of_nat j) (Z.of_nat i)) in *.
    set (b := ring_index numSides (Z.of_nat j) ((Z.of_nat i + 1) mod numSides)) in *.
    set (c := ring_index numSides (Z.of_nat j + 1) ((Z.of_nat i + 1) mod numSides)) in *.
    assert (Hmod : (0 <= (Z.of_nat i + 1) mod numSides < numSides)%Z)
      by (apply Z.mod_pos_bound; lia).
    destruct (lookup_in_range vs (a - 1)) as [v1 Hv1]; [unfold a, ring_index; lia|
      unfold a, ring_index; nia|].
    destruct (lookup_in_range vs (b - 1)) as [v2 Hv2]; [unfold b, ring_index; lia|
      unfold b, ring_index; nia|].
    destruct (lookup_in_range vs (c - 1)) as [v3 Hv3]; [unfold c, ring_index; nia|
      unfold c, ring_index; nia|].
    exists a, b, c, v1, v2, v3.
    refine (conj Hf1 (conj Hv1 (conj Hv2 (conj Hv3 _)))).
    assert (Hq := f_equal (fun l => nth_error l q) Hm). simpl in Hq.
    rewrite !nth_error_map in Hq.
    unfold L, q, n in Hq. rewrite quad_indices_nth in Hq by lia. simpl in Hq.
    unfold quad_normal, side_normal in Hq. simpl fst in Hq; simpl snd in Hq.
    cbv zeta in Hq. rewrite rem_mod in Hq by lia.
    unfold a, b, c, ring_index in Hv1, Hv2, Hv3.
    rewrite Hv1, Hv2, Hv3 in Hq.
    simpl. unfold q, n. destruct (nth_error out _); simpl in Hq; congruence.
  - intros q Hq.
    assert (Hlen : List.length facesSides = (2 * n * (Rn - 1))%nat)
      by (apply length_facesSides; lia).
    destruct (nth_error facesSides (2 * q)) as [f1|] eqn:E1;
      [|apply nth_error_None in E1; lia].
    destruct (nth_error facesSides (2 * q + 1)) as [f2|] eqn:E2;
      [|apply nth_error_None in E2; lia].
    exists f1, f2. split; [reflexivity|]. split; [reflexivity|].
    rewrite !nth_error_side_lines, E1, E2, div2_double, div2_double_succ.
    rewrite nth_error_map, nth_error_seq.
    assert (Hlt : (q <? List.length L)%nat = true) by (apply Nat.ltb_lt; lia).
    rewrite Hlt. split; reflexivity.
Qed.

Lemma normals_layout_witness :
  (3 <= 4 <= 36)%Z /\ (2 <= List.length [mkRing 0 2; mkRing 1 1])%nat /\
  exists ns idx,
    normals 4 (repeat (mk3 0 0 0) 10) [mkRing 0 2; mkRing 1 1] = Some (ns, 1%Z, 2%Z, idx) /\
    List.length ns = 6%nat.
Proof.
  split; [lia|]. split; [simpl; lia|].
  destruct (normals_layout 4 (repeat (mk3 0 0 0) 10) [mkRing 0 2; mkRing 1 1])
    as (ns & idx & H1 & H2 & _); [lia|simpl; lia|reflexivity|].
  exists ns, idx. split; [exact H1|exact H2].
Defined.

(** ** Facts for the index bounds *)

Lemma vertices_result (numSides : Z) (levels : list level) :
  levels <> [] ->
  exists vs, vertices numSides levels = Some (vs, buildRings levels) /\
    List.length vs = (2 + List.length (buildRings levels) * Z.to_nat numSides)%nat.
Proof.
  intros Hne. unfold vertices.
  rewrite (last_ring_last _ (mkRing 0 0)) by (apply buildRings_nonempty; assumption).
  eexists. split; [reflexivity|]. simpl. do 2 f_equal.
  apply length_flat_map_const. apply length_ring_vertices.
Qed.

Lemma face_line_inv (f : face) (n : option Z) a na b nb c nc :
  face_line f n = LF a na b nb c nc -> f = (a, b, c) /\ na = n /\ nb = n /\ nc = n.
Proof. destruct f as [[x y] z]; simpl; intros H; injection H; intros; subst; auto. Qed.

Lemma In_facesBase (numSides : Z) (rings : list ring) (f : face) :
  (0 < numSides)%Z -> In f (fst (fst (faces numSides rings))) ->
  exists i, (0 <= i < numSides)%Z /\
    f = (1%Z, (3 + (i + 1) mod numSides)%Z, (3 + i)%Z).
Proof.
  intros HN Hin. unfold faces in Hin; cbv zeta in Hin; simpl fst in Hin.
  apply in_map_iff in Hin as [i [<- Hi]]. apply In_seqZ in Hi.
  exists i. split; [exact Hi|]. rewrite rem_mod by lia. f_equal; f_equal; lia.
Qed.

Lemma In_facesTop (numSides : Z) (rings : list ring) (f : face) :
  (0 < numSides)%Z -> In f (snd (fst (faces numSides rings))) ->
  exists i, (0 <= i < numSides)%Z /\
    f = (2%Z, (3 + (Z.of_nat (List.length rings) - 1) * numSides + i)%Z,
         (3 + (Z.of_nat (List.length rings) - 1) * numSides + (i + 1) mod numSides)%Z).
Proof.
  intros HN Hin. unfold faces in Hin; cbv zeta in Hin; simpl fst in Hin; simpl snd in Hin.
  apply in_map_iff in Hin as [i [<- Hi]]. apply In_seqZ in Hi.
  exists i. split; [exact Hi|]. rewrite rem_mod by lia. reflexivity.
Qed.

Lemma In_facesSides (numSides : Z) (rings : list ring) (f : face) :
  (0 < numSides)%Z -> In f (snd (faces numSides rings)) ->
  exists j i, (0 <= j < Z.of_nat (List.length rings) - 1)%Z /\ (0 <= i < numSides)%Z /\
    In f (side_faces numSides j (j + 1) i).
Proof.
  intros HN Hin. unfold faces in Hin; cbv zeta in Hin; simpl snd in Hin.
  apply in_flat_map in Hin as [j [Hj Hin]]. apply in_flat_map in Hin as [i [Hi Hin]].
  apply In_seqZ in Hj, Hi. exists j, i. auto.
Qed.

Lemma In_side_lines (fs : list face) (idx : list Z) (x : obj_line) :
  In x (side_lines fs idx) ->
  exists p f, (p < List.length fs)%nat /\ In f fs /\
    x = face_line f (nth_error idx (Nat.div p 2)).
Proof.
  unfold side_lines. intros Hin. apply in_map_iff in Hin as [[p f] [<- Hin]].
  exists p, f. split; [|split; [|reflexivity]].
  - apply in_combine_l in Hin. apply in_seq in Hin. lia.
  - apply in_combine_r in Hin. exact Hin.
Qed.

(** Split an equation between two triples without reducing the components. *)
Ltac split_triple H :=
  match type of H with
  | (?a, ?b, ?c) = (?a', ?b', ?c') =>
      let E1 := fresh "E" in let E2 := fresh "E" in let E3 := fresh "E" in
      assert (E1 : a = a') by congruence;
      assert (E2 : b = b') by congruence;
      assert (E3 : c = c') by congruence;
      clear H; subst
  end.

(** C5: for 3 <= N <= 36 and a non-empty level list, the pipeline writes an
    OBJ file in which every vertex index of every face (base, top, lateral)
    lies in [1, vertexCount] with vertexCount = 2 + R*N the number of
    vertices, and every normal index paired with a face is defined and lies in
    [1, normalCount] with normalCount = 2 + (R-1)*N the number of normals. *)
Theorem obj_indices_in_range (numSides : Z) (levels : list level)
  (HN : (3 <= numSides <= 36)%Z) (Hne : levels <> []) :
  let Rn := List.length (buildRings levels) in
  let vertexCount := Z.of_nat (2 + Rn * Z.to_nat numSides) in
  let normalCount := Z.of_nat (2 + (Rn - 1) * Z.to_nat numSides) in
  exists vs ns fb ft fs idx,
    generate numSides levels = Written (createOBJ vs ns fb ft fs 1 2 idx) /\
    Z.of_nat (List.length vs) = vertexCount /\
    Z.of_nat (List.length ns) = normalCount /\
    (forall a na b nb c nc,
       In (LF a na b nb c nc) (createOBJ vs ns fb ft fs 1 2 idx) ->
       (forall v, In v [a; b; c] -> (1 <= v <= vertexCount)%Z) /\
       (forall m, In m [na; nb; nc] -> exists k, m = Some k /\ (1 <= k <= normalCount)%Z)).
Proof.
  intros Rn vertexCount normalCount.
  set (rings := buildRings levels) in *.
  assert (HR : (1 <= Rn)%nat).
  { pose proof (buildRings_nonempty levels Hne) as H. fold rings in H.
    unfold Rn. destruct rings; [congruence|simpl; lia]. }
  destruct (vertices_result numSides levels Hne) as [vs [Hv Hvlen]]. fold rings in Hv, Hvlen.
  destruct (normals_result numSides vs rings) as [out [Hres Hm]]; [lia|exact HR|exact Hvlen|].
  set (L := quad_indices numSides (Z.of_nat (List.length rings))) in *.
  assert (HL : List.length L = ((Rn - 1) * Z.to_nat numSides)%nat)
    by (apply length_quad_indices; exact HR).
  assert (Hout : List.length out = List.length L).
  { rewrite <- (length_map Some out), Hm, length_map. reflexivity. }
  destruct (faces numSides rings) as [[fb ft] fs] eqn:Ef.
  assert (Hfs : List.length fs = (2 * Z.to_nat numSides * (Rn - 1))%nat).
  { change fs with (snd (fb, ft, fs)). rewrite <- Ef. apply length_facesSides. exact HR. }
  exists vs, ([mk3 0 (-1) 0; mk3 0 1 0] ++ out), fb, ft, fs,
    (map (fun k => Z.of_nat (2 + S k)) (seq 0 (List.length L))).
  assert (HVC : vertexCount = (2 + Z.of_nat Rn * numSides)%Z)
    by (unfold vertexCount; rewrite Nat2Z.inj_add, Nat2Z.inj_mul, Z2Nat.id by lia; lia).
  assert (HNC : normalCount = (2 + Z.of_nat (Rn - 1) * numSides)%Z)
    by (unfold normalCount; rewrite Nat2Z.inj_add, Nat2Z.inj_mul, Z2Nat.id by lia; lia).
  split.
  { unfold generate. rewrite Hv, Ef, Hres. reflexivity. }
  split; [rewrite Hvlen; reflexivity|].
  split; [rewrite length_app, Hout, HL; reflexivity|].
  intros a na b nb c nc Hin.
  rewrite HVC, HNC.
  assert (HRz : (1 <= Z.of_nat Rn)%Z) by lia.
  unfold createOBJ in Hin. rewrite !in_app_iff in Hin.
  destruct Hin as [[Hin|[]]|[[Hin|[]]|[Hin|[[Hin|[]]|[Hin|[[Hin|[]]|[Hin|[Hin|Hin]]]]]]]];
    try discriminate;
    try (apply in_map_iff in Hin as [? [Hin _]]; discriminate).
  - (* base cap *)
    apply in_map_iff in Hin as [f [Hf Hin]].
    apply face_line_inv in Hf as (-> & -> & -> & ->).
    assert (Hin' : In (a, b, c) (fst (fst (faces numSides rings)))) by (rewrite Ef; exact Hin).
    apply In_facesBase in Hin' as [i [Hi Heq]]; [|lia].
    split_triple Heq.
    pose proof (Z.mod_pos_bound (i + 1) numSides ltac:(lia)).
    split.
    + intros v [<-|[<-|[<-|[]]]]; nia.
    + intros m [<-|[<-|[<-|[]]]]; exists 1%Z; split; (reflexivity || nia).
  - (* top cap *)
    apply in_map_iff in Hin as [f [Hf Hin]].
    apply face_line_inv in Hf as (-> & -> & -> & ->).
    assert (Hin' : In (a, b, c) (snd (fst (faces numSides rings)))) by (rewrite Ef; exact Hin).
    apply In_facesTop in Hin' as [i [Hi Heq]]; [|lia].
    fold Rn in Heq. split_triple Heq.
    pose proof (Z.mod_pos_bound (i + 1) numSides ltac:(lia)).
    split.
    + intros v [<-|[<-|[<-|[]]]]; nia.
    + intros m [<-|[<-|[<-|[]]]]; exists 2%Z; split; (reflexivity || nia).
  - (* lateral bands *)
    apply In_side_lines in Hin as [p [f [Hp [Hf Heq]]]].
    symmetry in Heq. apply face_line_inv in Heq as (-> & -> & -> & ->).
    assert (Hin' : In (a, b, c) (snd (faces numSides rings))) by (rewrite Ef; exact Hf).
    apply In_facesSides in Hin' as [j [i [Hj [Hi Hs]]]]; [|lia].
    fold Rn in Hj.
    pose proof (Z.mod_pos_bound (i + 1) numSides ltac:(lia)).
    unfold side_faces in Hs. cbv zeta in Hs.
    rewrite rem_mod in Hs by lia.
    split.
    +       destruct Hs as [Heq|[Heq|[]]]; split_triple Heq;
        intros v [<-|[<-|[<-|[]]]]; nia.
    + assert (Hp2 : (Nat.div p 2 < List.length L)%nat).
      { rewrite HL. apply Nat.Div0.div_lt_upper_bound. lia. }
      rewrite nth_error_map, nth_error_seq.
      apply Nat.ltb_lt in Hp2. rewrite Hp2. apply Nat.ltb_lt in Hp2.
      intros m [<-|[<-|[<-|[]]]]; eexists; split; try reflexivity; lia.
Qed.

Lemma obj_indices_in_range_witness :
  (3 <= 4 <= 36)%Z /\ [mkLevel 1 2 1] <> [] /\
  exists lines, generate 4 [mkLevel 1 2 1] = Written lines.
Proof.
  split; [lia|]. split; [discriminate|].
  destruct (obj_indices_in_range 4 [mkLevel 1 2 1]) as (vs & ns & fb & ft & fs & idx & H & _);
    [lia|discriminate|].
  eexists. exact H.
Defined.

(** ** Geometry of the lateral triangles *)

(** The angular step [2 * Math.PI / numSides]. *)
Lemma angle_step_bounds (numSides : Z) :
  (3 <= numSides)%Z -> 0 < 2 * PI / IZR numSides < PI.
Proof.
  intros HN. assert (H3 : 3 <= IZR numSides) by (apply IZR_le; lia).
  pose proof PI_RGT_0 as Hpi. split.
  - apply Rdiv_lt_0_compat; lra.
  - apply (Rmult_lt_reg_r (IZR numSides)); [lra|].
    unfold Rdiv. rewrite Rmult_assoc, Rinv_l by lra. nra.
Qed.

(** Consecutive samples [i] and [(i + 1) mod N] are a positive quarter-turn
    apart at most: the sine of the angle between them is [sin (2PI/N) > 0]. *)
Lemma sample_sine_pos (numSides i : Z) :
  (3 <= numSides)%Z -> (0 <= i < numSides)%Z ->
  let step := 2 * PI / IZR numSides in
  let t := IZR i * step in
  let t' := IZR ((i + 1) mod numSides) * step in
  0 < cos t * sin t' - sin t * cos t'.
Proof.
  intros HN Hi step t t'.
  assert (Hstep := angle_step_bounds numSides HN). fold step in Hstep.
  replace (cos t * sin t' - sin t * cos t') with (sin (t' - t))
    by (rewrite sin_minus; ring).
  destruct (Z.eq_dec (i + 1) numSides) as [Heq|Hne].
  - assert (Hm : ((i + 1) mod numSides = 0)%Z) by (rewrite Heq; apply Z.mod_same; lia).
    unfold t'. rewrite Hm. unfold t.
    assert (Ht : IZR i * step = 2 * PI - step).
    { unfold step. replace i with (numSides - 1)%Z by lia.
      rewrite minus_IZR. field. apply not_0_IZR. lia. }
    rewrite Ht. replace (IZR 0 * step - (2 * PI - step)) with (step - 2 * PI) by (simpl; ring).
    rewrite sin_minus, sin_2PI, cos_2PI.
    replace (sin step * 1 - cos step * 0) with (sin step) by ring.
    apply sin_gt_0; lra.
  - assert (Hm : ((i + 1) mod numSides = i + 1)%Z) by (apply Z.mod_small; lia).
    unfold t', t. rewrite Hm, plus_IZR.
    replace ((IZR i + IZR 1) * step - IZR i * step) with step by (simpl; ring).
    apply sin_gt_0; lra.
Qed.

(** The cross product of the edges [v1 -> v2] and [v1 -> v3] of a lateral
    triangle (lower ring [(y1, r1)], upper ring [(y2, r2)], angles [t], [t'])
    vanishes only when the two rings coincide or the angles are aligned. *)
Lemma lateral_cross_nonzero (c s c' s' y1 r1 y2 r2 : R) :
  0 < r1 -> (y1, r1) <> (y2, r2) -> 0 < c * s' - s * c' ->
  V3.cross (V3.subtract (mk3 (c' * r1) y1 (s' * r1)) (mk3 (c * r1) y1 (s * r1)))
           (V3.subtract (mk3 (c' * r2) y2 (s' * r2)) (mk3 (c * r1) y1 (s * r1)))
  <> mk3 0 0 0.
Proof.
  intros Hr1 Hdiff HD Heq. unfold V3.cross, V3.subtract, mk3 in Heq.
  injection Heq as Ex Ey Ez.
  destruct (Req_dec y1 y2) as [<-|Hy].
  - assert (Hr : r2 <> r1) by (intros ->; apply Hdiff; reflexivity).
    assert (E : r1 * ((r2 - r1) * (c * s' - s * c')) = 0) by nra.
    apply Rmult_integral in E as [E|E]; [lra|].
    apply Rmult_integral in E as [E|E]; [apply Hr; lra|lra].
  - assert (E1 : (s' - s) * (r1 * (y2 - y1)) = 0) by nra.
    assert (E3 : (c' - c) * (r1 * (y2 - y1)) = 0) by nra.
    assert (Hne : r1 * (y2 - y1) <> 0)
      by (intros E; apply Rmult_integral in E as [E|E]; [lra|apply Hy; lra]).
    apply Rmult_integral in E1 as [E1|E1]; [|contradiction].
    apply Rmult_integral in E3 as [E3|E3]; [|contradiction].
    replace s' with s in HD by lra. replace c' with c in HD by lra. lra.
Qed.

(** [V3.normalize] of a non-zero vector is a unit vector. *)
Lemma normalize_unit (v : vec3) :
  v <> mk3 0 0 0 -> V3.dot (V3.normalize v) (V3.normalize v) = 1.
Proof.
  destruct v as [[x y] z]. intros Hv. unfold V3.normalize, V3.length, V3.dot.
  assert (Hs : 0 < x * x + y * y + z * z).
  { destruct (Req_dec x 0), (Req_dec y 0), (Req_dec z 0); subst;
      try (exfalso; apply Hv; reflexivity); nra. }
  pose proof (sqrt_lt_R0 _ Hs) as Hq. pose proof (sqrt_sqrt _ (Rlt_le _ _ Hs)) as Hqq.
  set (q := sqrt (x * x + y * y + z * z)) in *.
  replace (x / q * (x / q) + y / q * (y / q) + z / q * (z / q))
    with ((x * x + y * y + z * z) / (q * q)) by (field; lra).
  rewrite Hqq. field. lra.
Qed.

Lemma buildRings_loop_radii (levels : list level) (rings : list ring) (y : R) :
  Forall (fun l => 0 < baseRadius l /\ 0 < topRadius l) levels ->
  Forall (fun rg => 0 < ring_r rg) rings ->
  Forall (fun rg => 0 < ring_r rg) (buildRings_loop levels rings y).
Proof.
  revert rings y. induction levels as [|l ls IH]; intros rings y Hl Hr; simpl; [exact Hr|].
  inversion Hl as [|? ? [Hb Ht] Hrest]; subst.
  apply IH; [exact Hrest|].
  destruct (negb _); [apply Forall_app; split; [|constructor; [exact Ht|constructor]]|];
    (destruct (isUniqueRing _ _ _);
      [apply Forall_app; split; [exact Hr|constructor; [exact Hb|constructor]]|exact Hr]).
Qed.

(** The vertex of sample [i] of ring [k], read back from the vertex buffer. *)
Lemma vertices_lookup (numSides : Z) (levels : list level) (vs : list vec3)
  (rings : list ring) (k : nat) (rg : ring) (i : Z) :
  vertices numSides levels = Some (vs, rings) -> nth_error rings k = Some rg ->
  (0 <= i < numSides)%Z ->
  lookup vs (3 + Z.of_nat k * numSides + i - 1) =
  Some (mk3 (cos (IZR i * (2 * PI / IZR numSides)) * ring_r rg) (ring_y rg)
            (sin (IZR i * (2 * PI / IZR numSides)) * ring_r rg)).
Proof.
  intros Hv Hk Hi. unfold vertices in Hv.
  destruct (last_ring (buildRings levels)); [|discriminate].
  injection Hv as <- <-.
  unfold lookup. destruct (3 + Z.of_nat k * numSides + i - 1 <? 0)%Z eqn:E;
    [apply Z.ltb_lt in E; nia|].
  replace (Z.to_nat (3 + Z.of_nat k * numSides + i - 1))
    with (2 + (k * Z.to_nat numSides + Z.to_nat i))%nat.
  2:{ apply Nat2Z.inj. rewrite Z2Nat.id by lia.
      rewrite !Nat2Z.inj_add, Nat2Z.inj_mul, !Z2Nat.id by lia. lia. }
  cbn [Nat.add nth_error app].
  rewrite (nth_error_flat_map_const _ (Z.to_nat numSides) _ k _ rg)
    by (try apply length_ring_vertices; try assumption; lia).
  unfold ring_vertices. rewrite nth_error_map, nth_error_seqZ by lia.
  rewrite Z2Nat.id by lia. reflexivity.
Qed.

(** C6: for 3 <= N <= 36 and a non-empty list of levels with positive heights
    and radii, the three vertices (lowerCurrent, lowerNext, upperNext) of every
    lateral quad are never collinear: the cross product of their edges is
    non-zero, and the normal computed from them is a unit vector. *)
Theorem lateral_normals_nondegenerate (numSides : Z) (levels : list level)
  (HN : (3 <= numSides <= 36)%Z) (Hne : levels <> [])
  (Hpos : Forall (fun l => 0 < height l /\ 0 < baseRadius l /\ 0 < topRadius l) levels) :
  exists vs rings, vertices numSides levels = Some (vs, rings) /\
  forall j i, (j < List.length rings - 1)%nat -> (0 <= i < numSides)%Z ->
    exists v1 v2 v3 nrm,
      lookup vs (ring_index numSides (Z.of_nat j) i - 1) = Some v1 /\
      lookup vs (ring_index numSides (Z.of_nat j) ((i + 1) mod numSides) - 1) = Some v2 /\
      lookup vs (ring_index numSides (Z.of_nat j + 1) ((i + 1) mod numSides) - 1)
        = Some v3 /\
      V3.cross (V3.subtract v2 v1) (V3.subtract v3 v1) <> mk3 0 0 0 /\
      side_normal numSides vs (Z.of_nat j) (Z.of_nat j + 1) i = Some nrm /\
      V3.dot nrm nrm = 1.
Proof.
  destruct (vertices_result numSides levels Hne) as [vs [Hv _]].
  exists vs, (buildRings levels). split; [exact Hv|].
  set (rings := buildRings levels) in *.
  assert (Hnd : NoDup (map ring_pair rings)).
  { destruct (buildRings_loop_inv levels [] 0) as [y [Hn _]].
    - eapply Forall_impl; [|exact Hpos]. simpl; tauto.
    - repeat split; simpl; constructor.
    - exact Hn. }
  assert (Hrad : Forall (fun rg => 0 < ring_r rg) rings).
  { apply buildRings_loop_radii; [|constructor].
    eapply Forall_impl; [|exact Hpos]. simpl; tauto. }
  intros j i Hj Hi.
  destruct (nth_error rings j) as [rg1|] eqn:E1; [|apply nth_error_None in E1; lia].
  destruct (nth_error rings (S j)) as [rg2|] eqn:E2; [|apply nth_error_None in E2; lia].
  assert (Hdiff : (ring_y rg1, ring_r rg1) <> (ring_y rg2, ring_r rg2)).
  { intros Heq. apply NoDup_nth_error with (i := j) (j := S j) in Hnd.
    - lia.
    - rewrite length_map. lia.
    - rewrite !nth_error_map, E1, E2. simpl. unfold ring_pair. rewrite Heq. reflexivity. }
  assert (Hr1 : 0 < ring_r rg1)
    by (rewrite Forall_forall in Hrad; apply Hrad; eapply nth_error_In; exact E1).
  assert (Hm := Z.mod_pos_bound (i + 1) numSides ltac:(lia)).
  pose proof (vertices_lookup numSides levels vs rings j rg1 i Hv E1 Hi) as Hv1.
  pose proof (vertices_lookup numSides levels vs rings j rg1 _ Hv E1 Hm) as Hv2.
  pose proof (vertices_lookup numSides levels vs rings (S j) rg2 _ Hv E2 Hm) as Hv3.
  replace (Z.of_nat (S j)) with (Z.of_nat j + 1)%Z in Hv3 by lia.
  pose proof (sample_sine_pos numSides i ltac:(lia) Hi) as HD. cbv zeta in HD.
  unfold ring_index.
  do 3 eexists. exists (V3.normalize (V3.cross
    (V3.subtract (mk3 (cos (IZR ((i + 1) mod numSides) * (2 * PI / IZR numSides)) * ring_r rg1)
                      (ring_y rg1)
                      (sin (IZR ((i + 1) mod numSides) * (2 * PI / IZR numSides)) * ring_r rg1))
                 (mk3 (cos (IZR i * (2 * PI / IZR numSides)) * ring_r rg1) (ring_y rg1)
                      (sin (IZR i * (2 * PI / IZR numSides)) * ring_r rg1)))
    (V3.subtract (mk3 (cos (IZR ((i + 1) mod numSides) * (2 * PI / IZR numSides)) * ring_r rg2)
                      (ring_y rg2)
                      (sin (IZR ((i + 1) mod numSides) * (2 * PI / IZR numSides)) * ring_r rg2))
                 (mk3 (cos (IZR i * (2 * PI / IZR numSides)) * ring_r rg1) (ring_y rg1)
                      (sin (IZR i * (2 * PI / IZR numSides)) * ring_r rg1))))).
  split; [exact Hv1|]. split; [exact Hv2|]. split; [exact Hv3|].
  assert (Hc := lateral_cross_nonzero _ _ _ _ _ _ _ _ Hr1 Hdiff HD).
  split; [exact Hc|]. split.
  - unfold side_normal. cbv zeta. rewrite rem_mod by lia.
    rewrite Hv1, Hv2, Hv3. reflexivity.
  - apply normalize_unit. exact Hc.
Qed.

Lemma lateral_normals_nondegenerate_witness :
  (3 <= 4 <= 36)%Z /\ [mkLevel 1 2 1; mkLevel 1 1 1] <> [] /\
  Forall (fun l => 0 < height l /\ 0 < baseRadius l /\ 0 < topRadius l)
    [mkLevel 1 2 1; mkLevel 1 1 1] /\
  exists vs rings, vertices 4 [mkLevel 1 2 1; mkLevel 1 1 1] = Some (vs, rings).
Proof.
  assert (Hp : Forall (fun l => 0 < height l /\ 0 < baseRadius l /\ 0 < topRadius l)
                 [mkLevel 1 2 1; mkLevel 1 1 1]) by (repeat constructor; simpl; lra).
  split; [lia|]. split; [discriminate|]. split; [exact Hp|].
  destruct (lateral_normals_nondegenerate 4 [mkLevel 1 2 1; mkLevel 1 1 1])
    as (vs & rings & H & _); [lia|discriminate|exact Hp|].
  exists vs, rings. exact H.
Defined.

(** The sign of the lateral normal against [radialOutward]: for a lower ring
    [(y1, r1)] and an upper ring [(y2, r2)] with [y1 < y2], the normal
    [normalize (cross (v2 - v1) (v3 - v1))] points towards the axis. *)
Lemma lateral_normal_radial_neg (c s c' s' y1 r1 y2 r2 : R) :
  0 < r1 -> y1 < y2 -> 0 < c * s' - s * c' ->
  let v1 := mk3 (c * r1) y1 (s * r1) in
  let v2 := mk3 (c' * r1) y1 (s' * r1) in
  let v3 := mk3 (c' * r2) y2 (s' * r2) in
  V3.dot (V3.normalize (V3.cross (V3.subtract v2 v1) (V3.subtract v3 v1)))
         (radialOutward v1 v2) < 0.
Proof.
  intros Hr1 Hy HD v1 v2 v3.
  assert (Hdiff : (y1, r1) <> (y2, r2)) by (intros E; injection E; lra).
  assert (Hc := lateral_cross_nonzero c s c' s' y1 r1 y2 r2 Hr1 Hdiff HD).
  fold v1 v2 v3 in Hc.
  destruct (V3.cross (V3.subtract v2 v1) (V3.subtract v3 v1)) as [[x y] z] eqn:Ex.
  assert (Hs : 0 < x * x + y * y + z * z).
  { destruct (Req_dec x 0) as [->|], (Req_dec y 0) as [->|], (Req_dec z 0) as [->|];
      try (exfalso; apply Hc; reflexivity); nra. }
  unfold v1, v2, v3, V3.cross, V3.subtract, mk3 in Ex. injection Ex as Ex Ey Ez.
  unfold V3.normalize, V3.length, V3.dot, radialOutward, v1, v2, mk3.
  pose proof (sqrt_lt_R0 _ Hs) as Hq.
  set (q := sqrt (x * x + y * y + z * z)) in *.
  assert (Hk : x * (c * r1 + c' * r1) + z * (s * r1 + s' * r1)
               = - (2 * (r1 * r1) * (y2 - y1) * (c * s' - s * c'))) by (subst; ring).
  assert (Hn : 0 < 2 * (r1 * r1) * (y2 - y1) * (c * s' - s * c')).
  { apply Rmult_lt_0_compat; [|exact HD].
    apply Rmult_lt_0_compat; [nra|lra]. }
  replace (x / q * (c * r1 + c' * r1) + y / q * 0 + z / q * (s * r1 + s' * r1))
    with ((x * (c * r1 + c' * r1) + z * (s * r1 + s' * r1)) / q) by (field; lra).
  rewrite Hk. apply Rdiv_neg_pos; lra.
Qed.

(** C7: for every N in [3,36] and every single level with positive height and
    base radius (in particular every tapering level with
    baseRadius > topRadius > 0), every lateral normal of the multi-level
    normal generator has a NEGATIVE dot product with the outward radial
    direction of its triangle: the lateral normals point inward. *)
Theorem lateral_normals_point_inward (numSides : Z) (l : level)
  (HN : (3 <= numSides <= 36)%Z) (Hh : 0 < height l) (Hb : 0 < baseRadius l) :
  exists vs, vertices numSides [l] = Some (vs, buildRings [l]) /\
  forall i, (0 <= i < numSides)%Z ->
    exists v1 v2 nrm,
      lookup vs (ring_index numSides 0 i - 1) = Some v1 /\
      lookup vs (ring_index numSides 0 ((i + 1) mod numSides) - 1) = Some v2 /\
      side_normal numSides vs 0 1 i = Some nrm /\
      V3.dot nrm (radialOutward v1 v2) < 0.
Proof.
  destruct (vertices_result numSides [l]) as [vs [Hv _]]; [discriminate|].
  exists vs. split; [exact Hv|]. intros i Hi.
  assert (E0 : nth_error (buildRings [l]) 0 = Some (mkRing 0 (baseRadius l)))
    by (rewrite buildRings_single by exact Hh; reflexivity).
  assert (E1 : nth_error (buildRings [l]) 1 = Some (mkRing (0 + height l) (topRadius l)))
    by (rewrite buildRings_single by exact Hh; reflexivity).
  assert (Hm := Z.mod_pos_bound (i + 1) numSides ltac:(lia)).
  pose proof (vertices_lookup numSides [l] vs _ 0 _ i Hv E0 Hi) as Hv1.
  pose proof (vertices_lookup numSides [l] vs _ 0 _ _ Hv E0 Hm) as Hv2.
  pose proof (vertices_lookup numSides [l] vs _ 1 _ _ Hv E1 Hm) as Hv3.
  change (Z.of_nat 0) with 0%Z in Hv1, Hv2. change (Z.of_nat 1) with 1%Z in Hv3.
  simpl ring_r in Hv1, Hv2, Hv3. simpl ring_y in Hv1, Hv2, Hv3.
  pose proof (sample_sine_pos numSides i ltac:(lia) Hi) as HD. cbv zeta in HD.
  unfold ring_index. do 3 eexists.
  split; [exact Hv1|]. split; [exact Hv2|]. split.
  - unfold side_normal. cbv zeta. rewrite rem_mod by lia.
    rewrite Hv1, Hv2, Hv3. reflexivity.
  - apply lateral_normal_radial_neg; [exact Hb|lra|exact HD].
Qed.

Lemma lateral_normals_point_inward_witness :
  exists vs, vertices 4 [mkLevel 1 2 1] = Some (vs, buildRings [mkLevel 1 2 1]) /\
  exists v1 v2 nrm,
    lookup vs (ring_index 4 0 0 - 1) = Some v1 /\
    lookup vs (ring_index 4 0 ((0 + 1) mod 4) - 1) = Some v2 /\
    side_normal 4 vs 0 1 0 = Some nrm /\ V3.dot nrm (radialOutward v1 v2) < 0.
Proof.
  destruct (lateral_normals_point_inward 4 (mkLevel 1 2 1)) as [vs [Hv Hall]];
    [lia|simpl; lra|simpl; lra|].
  exists vs. split; [exact Hv|]. apply Hall. lia.
Defined.

(** ** Facts for comparing the two generators *)

(** The vertex buffer of the single-level generator: base vertex [i] sits at
    0-based position [2 + 2i], top vertex [i] right after it. *)
Lemma single_vertices_lookup (numSides : Z) (height baseRadius topRadius : R) (i : Z) :
  (0 <= i < numSides)%Z ->
  let angle := IZR i * (2 * PI / IZR numSides) in
  lookup (Single.vertices numSides height baseRadius topRadius) (2 + 2 * i)
    = Some (mk3 (cos angle * baseRadius) 0 (sin angle * baseRadius)) /\
  lookup (Single.vertices numSides height baseRadius topRadius) (3 + 2 * i)
    = Some (mk3 (cos angle * topRadius) height (sin angle * topRadius)).
Proof.
  intros Hi angle. unfold lookup, Single.vertices. cbv zeta.
  assert (Hlen : forall j : Z, List.length
            [mk3 (cos (IZR j * (2 * PI / IZR numSides)) * baseRadius) 0
                 (sin (IZR j * (2 * PI / IZR numSides)) * baseRadius);
             mk3 (cos (IZR j * (2 * PI / IZR numSides)) * topRadius) height
                 (sin (IZR j * (2 * PI / IZR numSides)) * topRadius)] = 2%nat)
    by reflexivity.
  assert (Hs : nth_error (seqZ numSides) (Z.to_nat i) = Some i)
    by (rewrite nth_error_seqZ by lia; rewrite Z2Nat.id by lia; reflexivity).
  split.
  - destruct (2 + 2 * i <? 0)%Z eqn:E; [apply Z.ltb_lt in E; lia|].
    replace (Z.to_nat (2 + 2 * i)) with (2 + (Z.to_nat i * 2 + 0))%nat by lia.
    cbn [Nat.add nth_error app].
    rewrite (nth_error_flat_map_const _ 2 _ _ 0 i Hlen Hs) by lia. reflexivity.
  - destruct (3 + 2 * i <? 0)%Z eqn:E; [apply Z.ltb_lt in E; lia|].
    replace (Z.to_nat (3 + 2 * i)) with (2 + (Z.to_nat i * 2 + 1))%nat by lia.
    cbn [Nat.add nth_error app].
    rewrite (nth_error_flat_map_const _ 2 _ _ 1 i Hlen Hs) by lia. reflexivity.
Qed.

(** The edge identity behind the two conventions: [v3 - v2 = (v3 - v1) - (v2 - v1)]
    and [cross a a = 0]. *)
Lemma cross_edge_conventions (v1 v2 v3 : vec3) :
  V3.cross (V3.subtract v2 v1) (V3.subtract v3 v2)
  = V3.cross (V3.subtract v2 v1) (V3.subtract v3 v1).
Proof.
  destruct v1 as [[a1 a2] a3], v2 as [[b1 b2] b3], v3 as [[c1 c2] c3].
  unfold V3.cross, V3.subtract. f_equal; [f_equal|]; ring.
Qed.

(** C8: the two edge conventions give the same cross product for every
    triangle, but the two generators do not compute the same normal for the
    same lateral triangle. For every N in [3,36] and every level with positive
    height and base radius, the first lateral triangle is [(3, 5, 6)] in the
    single-level generator and [(ring_0[0], ring_0[1], ring_1[1])] in the
    multi-level one, and both denote the same three points; yet the
    single-level normal stored for it is [(0, 0, 1)] (it is read from the
    vertices 1, 3, 4 since that generator starts counting at [baseStart = 1]),
    while the multi-level normal is a different vector. *)
Theorem generator_normals_differ (numSides : Z) (l : level)
  (HN : (3 <= numSides <= 36)%Z) (Hh : 0 < height l) (Hb : 0 < baseRadius l) :
  (forall v1 v2 v3 : vec3,
     V3.cross (V3.subtract v2 v1) (V3.subtract v3 v2)
     = V3.cross (V3.subtract v2 v1) (V3.subtract v3 v1)) /\
  let vsS := Single.vertices numSides (height l) (baseRadius l) (topRadius l) in
  exists vsM, vertices numSides [l] = Some (vsM, buildRings [l]) /\
    nth_error (snd (Single.faces numSides)) 0 = Some (3%Z, 5%Z, 6%Z) /\
    nth_error (snd (faces numSides (buildRings [l]))) 0
      = Some (ring_index numSides 0 0, ring_index numSides 0 1, ring_index numSides 1 1) /\
    lookup vsS (3 - 1) = lookup vsM (ring_index numSides 0 0 - 1) /\
    lookup vsS (5 - 1) = lookup vsM (ring_index numSides 0 1 - 1) /\
    lookup vsS (6 - 1) = lookup vsM (ring_index numSides 1 1 - 1) /\
    Single.side_normal numSides vsS 0 = Some (mk3 0 0 1) /\
    exists nrm, side_normal numSides vsM 0 1 0 = Some nrm /\ nrm <> mk3 0 0 1.
Proof.
  split; [exact cross_edge_conventions|]. intros vsS.
  destruct (vertices_result numSides [l]) as [vsM [Hv _]]; [discriminate|].
  exists vsM. split; [exact Hv|].
  assert (E0 : nth_error (buildRings [l]) 0 = Some (mkRing 0 (baseRadius l)))
    by (rewrite buildRings_single by exact Hh; reflexivity).
  assert (E1 : nth_error (buildRings [l]) 1 = Some (mkRing (0 + height l) (topRadius l)))
    by (rewrite buildRings_single by exact Hh; reflexivity).
  assert (Hm : ((0 + 1) mod numSides = 1)%Z) by (apply Z.mod_small; lia).
  pose proof (vertices_lookup numSides [l] vsM _ 0 _ 0 Hv E0 ltac:(lia)) as Hv1.
  pose proof (vertices_lookup numSides [l] vsM _ 0 _ 1 Hv E0 ltac:(lia)) as Hv2.
  pose proof (vertices_lookup numSides [l] vsM _ 1 _ 1 Hv E1 ltac:(lia)) as Hv3.
  change (Z.of_nat 0) with 0%Z in Hv1, Hv2. change (Z.of_nat 1) with 1%Z in Hv3.
  simpl ring_r in Hv1, Hv2, Hv3. simpl ring_y in Hv1, Hv2, Hv3.
  destruct (single_vertices_lookup numSides (height l) (baseRadius l) (topRadius l) 0
              ltac:(lia)) as [Hs0 Ht0].
  destruct (single_vertices_lookup numSides (height l) (baseRadius l) (topRadius l) 1
              ltac:(lia)) as [Hs1 Ht1].
  cbv zeta in Hs0, Ht0, Hs1, Ht1. fold vsS in Hs0, Ht0, Hs1, Ht1.
  refine (conj _ (conj _ (conj _ (conj _ (conj _ (conj _ _)))))).
  - unfold Single.faces. cbv zeta. simpl snd.
    unfold seqZ. replace (Z.to_nat numSides) with (S (Z.to_nat numSides - 1)) by lia.
    simpl. destruct (numSides - 1)%Z eqn:E; [lia|reflexivity|reflexivity].
  - destruct (facesSides_nth numSides (buildRings [l]) 0 0) as [H _];
      [lia|rewrite buildRings_single by exact Hh; simpl; lia|lia|].
    change (2 * (0 * Z.to_nat numSides + 0))%nat with 0%nat in H.
    rewrite H. change (Z.of_nat 0) with 0%Z. rewrite Hm. reflexivity.
  - unfold ring_index. rewrite Hv1. exact Hs0.
  - unfold ring_index. rewrite Hv2. exact Hs1.
  - unfold ring_index. rewrite Hv3. replace (0 + height l) with (height l) by ring.
    exact Ht1.
  - unfold Single.side_normal. cbv zeta.
    destruct (0 =? numSides - 1)%Z eqn:E; [apply Z.eqb_eq in E; lia|].
    replace (lookup vsS (1 + 2 * 0 - 1)) with (Some (mk3 0 0 0)) by reflexivity.
    replace (1 + 2 * 0 + 2 - 1)%Z with (2 + 2 * 0)%Z by reflexivity.
    replace (2 + 2 * 0 + 2 - 1)%Z with (3 + 2 * 0)%Z by reflexivity.
    rewrite Hs0, Ht0. rewrite Rmult_0_l, cos_0, sin_0.
    assert (Hc : V3.cross (V3.subtract (mk3 (1 * baseRadius l) 0 (0 * baseRadius l))
                                       (mk3 0 0 0))
                          (V3.subtract (mk3 (1 * topRadius l) (height l) (0 * topRadius l))
                                       (mk3 (1 * baseRadius l) 0 (0 * baseRadius l)))
                 = mk3 0 0 (baseRadius l * height l))
      by (unfold V3.cross, V3.subtract, mk3; f_equal; [f_equal|]; ring).
    rewrite Hc. unfold V3.normalize, V3.length, V3.dot, mk3.
    assert (Hp : 0 < baseRadius l * height l) by (apply Rmult_lt_0_compat; assumption).
    replace (0 * 0 + 0 * 0 + baseRadius l * height l * (baseRadius l * height l))
      with (Rsqr (baseRadius l * height l)) by (unfold Rsqr; ring).
    rewrite sqrt_Rsqr by lra.
    f_equal. f_equal; [f_equal|]; field; lra.
  - pose proof (sample_sine_pos numSides 0 ltac:(lia) ltac:(lia)) as HD. cbv zeta in HD.
    rewrite Hm in HD.
    eexists. split.
    + unfold side_normal. cbv zeta. rewrite rem_mod by lia.
      unfold ring_index in Hv1, Hv2, Hv3. rewrite Hm.
      rewrite Hv1, Hv2, Hv3. reflexivity.
    + intros Heq.
      pose proof (lateral_normal_radial_neg _ _ _ _ 0 (baseRadius l) (0 + height l)
                    (topRadius l) Hb ltac:(lra) HD) as Hneg.
      cbv zeta in Hneg. rewrite Heq in Hneg.
      unfold V3.dot, radialOutward, mk3 in Hneg.
      assert (Hc0 : cos (IZR 0 * (2 * PI / IZR numSides)) = 1)
        by (rewrite Rmult_0_l; apply cos_0).
      assert (Hs0' : sin (IZR 0 * (2 * PI / IZR numSides)) = 0)
        by (rewrite Rmult_0_l; apply sin_0).
      rewrite Hc0, Hs0' in Hneg.
      assert (Hstep := angle_step_bounds numSides ltac:(lia)).
      assert (Hsin : 0 < sin (IZR 1 * (2 * PI / IZR numSides)))
        by (rewrite Rmult_1_l; apply sin_gt_0; lra).
      nra.
Qed.

Lemma generator_normals_differ_witness :
  exists vsM, vertices 4 [mkLevel 1 1 1] = Some (vsM, buildRings [mkLevel 1 1 1]) /\
    Single.side_normal 4 (Single.vertices 4 1 1 1) 0 = Some (mk3 0 0 1) /\
    exists nrm, side_normal 4 vsM 0 1 0 = Some nrm /\ nrm <> mk3 0 0 1.
Proof.
  destruct (generator_normals_differ 4 (mkLevel 1 1 1)) as [_ H];
    [lia|simpl; lra|simpl; lra|].
  cbv zeta in H. destruct H as (vsM & Hv & _ & _ & _ & _ & _ & Hs & Hm).
  exists vsM. split; [exact Hv|]. split; [exact Hs|exact Hm].
Defined.

(** ** Facts for the command-line validation *)

Lemma num_leb_true (a b : R) : a <= b -> num_leb a b = true.
Proof. intros H. unfold num_leb. destruct (Rle_dec a b); [reflexivity|contradiction]. Qed.

Lemma num_leb_false (a b : R) : b < a -> num_leb a b = false.
Proof. intros H. unfold num_leb. destruct (Rle_dec a b); [lra|reflexivity]. Qed.

Lemma arg_or_absent {A} (parse : string -> A) (args : list string) (k : nat) (d : A) :
  nth_error args k = None -> arg_or parse args k d = d.
Proof. intros H. unfold arg_or. rewrite H. reflexivity. Qed.

(** The level loop rejects as soon as one of its levels has a value [<= 0]. *)
Lemma levels_loop_bad (parseFloat : string -> R) (args : list string)
  (height baseRadius topRadius : R) (is : list nat) (i : nat) :
  In i is ->
  (arg_or parseFloat args (5 + i * 3) height <= 0 \/
   arg_or parseFloat args (6 + i * 3) baseRadius <= 0 \/
   arg_or parseFloat args (7 + i * 3) topRadius <= 0) ->
  levels_loop parseFloat args height baseRadius topRadius is = None.
Proof.
  intros Hin Hbad. induction is as [|j rest IH]; [destruct Hin|].
  cbn [levels_loop]. destruct Hin as [<-|Hin].
  - destruct Hbad as [H|[H|H]]; rewrite (num_leb_true _ _ H);
      rewrite ?Bool.orb_true_r; reflexivity.
  - destruct (_ || _); [reflexivity|]. rewrite IH by exact Hin. reflexivity.
Qed.

(** The level loop accepts when all its levels are positive, and reads each
    value with its default. *)
Lemma levels_loop_ok (parseFloat : string -> R) (args : list string)
  (height baseRadius topRadius : R) (is : list nat) :
  (forall i, In i is ->
     0 < arg_or parseFloat args (5 + i * 3) height /\
     0 < arg_or parseFloat args (6 + i * 3) baseRadius /\
     0 < arg_or parseFloat args (7 + i * 3) topRadius) ->
  levels_loop parseFloat args height baseRadius topRadius is =
  Some (map (fun i => mkLevel (arg_or parseFloat args (5 + i * 3) height)
                              (arg_or parseFloat args (6 + i * 3) baseRadius)
                              (arg_or parseFloat args (7 + i * 3) topRadius)) is).
Proof.
  intros Hall. induction is as [|j rest IH]; [reflexivity|].
  cbn [levels_loop]. destruct (Hall j (or_introl eq_refl)) as [H1 [H2 H3]].
  rewrite (num_leb_false _ _ H1), (num_leb_false _ _ H2), (num_leb_false _ _ H3).
  cbn [orb]. rewrite IH by (intros i Hi; apply Hall; right; exact Hi). reflexivity.
Qed.

(** C9: if the parsed [numSides] is outside [3,36], or the parsed base height
    or one of the radii is [<= 0], or one of the [numLevels] levels has a
    height or radius [<= 0] (a missing level value taking its default),
    [getInputs] exits with an error, and [main] ends with exit code 1 without
    running the vertex, face and normal generators. *)
Theorem getInputs_rejects_invalid (parseInt : string -> Z) (parseFloat : string -> R)
  (args : list string) :
  let numSides := arg_or parseInt args 0 8%Z in
  let height := arg_or parseFloat args 1 6 in
  let baseRadius := arg_or parseFloat args 2 1 in
  let topRadius := arg_or parseFloat args 3 (8 / 10) in
  let numLevels := arg_or parseInt args 4 0%Z in
  ((numSides < 3)%Z \/ (36 < numSides)%Z \/
   height <= 0 \/ baseRadius <= 0 \/ topRadius <= 0 \/
   exists i, (i < Z.to_nat numLevels)%nat /\
     (arg_or parseFloat args (5 + i * 3) height <= 0 \/
      arg_or parseFloat args (6 + i * 3) baseRadius <= 0 \/
      arg_or parseFloat args (7 + i * 3) topRadius <= 0)) ->
  getInputs parseInt parseFloat args = None /\ main parseInt parseFloat args = Exit1.
Proof.
  intros numSides height baseRadius topRadius numLevels Hbad.
  assert (H : getInputs parseInt parseFloat args = None).
  { unfold getInputs. fold numSides height baseRadius topRadius numLevels.
    destruct ((numSides <? 3)%Z || (36 <? numSides)%Z) eqn:E1; [reflexivity|].
    apply Bool.orb_false_iff in E1 as [E1a E1b].
    apply Z.ltb_ge in E1a. apply Z.ltb_ge in E1b.
    destruct (num_leb height 0 || num_leb baseRadius 0 || num_leb topRadius 0) eqn:E2;
      [reflexivity|].
    apply Bool.orb_false_iff in E2 as [E2 E2c]. apply Bool.orb_false_iff in E2 as [E2a E2b].
    destruct Hbad as [Hb|[Hb|[Hb|[Hb|[Hb|[i [Hi Hb]]]]]]]; try lia;
      try (rewrite num_leb_true in E2a by exact Hb; discriminate);
      try (rewrite num_leb_true in E2b by exact Hb; discriminate);
      try (rewrite num_leb_true in E2c by exact Hb; discriminate).
    destruct (0 <? numLevels)%Z eqn:E3; [|apply Z.ltb_ge in E3; lia].
    destruct (5 + numLevels * 3 <? Z.of_nat (List.length args))%Z; [reflexivity|].
    rewrite (levels_loop_bad parseFloat args height baseRadius topRadius _ i);
      [reflexivity| |exact Hb].
    apply in_seq. lia. }
  split; [exact H|]. unfold main. rewrite H. reflexivity.
Qed.

Lemma getInputs_rejects_invalid_witness :
  getInputs (fun _ => 2%Z) (fun _ => 1) ["2"%string] = None /\
  main (fun _ => 2%Z) (fun _ => 1) ["2"%string] = Exit1.
Proof.
  apply (getInputs_rejects_invalid (fun _ => 2%Z) (fun _ => 1) ["2"%string]).
  cbv zeta. left. unfold arg_or. simpl. lia.
Defined.

(** C10: when [numLevels > 0], the base values are valid and no more than
    [5 + 3*numLevels] arguments are given, [getInputs] accepts however few
    level arguments there are, as long as the given ones are positive: it
    returns the base level followed by [numLevels] levels, level [i] being read
    from the arguments [5+3i], [6+3i], [7+3i], and each of them that is absent
    taking the base [height], [baseRadius] or [topRadius]. *)
Theorem getInputs_level_defaults (parseInt : string -> Z) (parseFloat : string -> R)
  (args : list string) :
  let numSides := arg_or parseInt args 0 8%Z in
  let h := arg_or parseFloat args 1 6 in
  let rb := arg_or parseFloat args 2 1 in
  let rt := arg_or parseFloat args 3 (8 / 10) in
  let numLevels := arg_or parseInt args 4 0%Z in
  (3 <= numSides <= 36)%Z -> 0 < h -> 0 < rb -> 0 < rt ->
  (0 < numLevels)%Z -> (Z.of_nat (List.length args) <= 5 + numLevels * 3)%Z ->
  (forall i, (i < Z.to_nat numLevels)%nat ->
     0 < arg_or parseFloat args (5 + i * 3) h /\
     0 < arg_or parseFloat args (6 + i * 3) rb /\
     0 < arg_or parseFloat args (7 + i * 3) rt) ->
  exists ls,
    getInputs parseInt parseFloat args =
      Some (mkInputs numSides h rb rt numLevels
              (mkLevel h rb rt :: ls)) /\
    List.length ls = Z.to_nat numLevels /\
    forall i lv, nth_error ls i = Some lv ->
      lv = mkLevel (arg_or parseFloat args (5 + i * 3) h)
                   (arg_or parseFloat args (6 + i * 3) rb)
                   (arg_or parseFloat args (7 + i * 3) rt) /\
      (nth_error args (5 + i * 3) = None -> lv.(height) = h) /\
      (nth_error args (6 + i * 3) = None -> lv.(baseRadius) = rb) /\
      (nth_error args (7 + i * 3) = None -> lv.(topRadius) = rt).
Proof.
  intros numSides h rb rt numLevels HN Hh Hb Ht Hl Hcount Hpos.
  eexists. split.
  - unfold getInputs. fold numSides h rb rt numLevels.
    replace ((numSides <? 3)%Z || (36 <? numSides)%Z) with false
      by (symmetry; apply Bool.orb_false_iff; split; apply Z.ltb_ge; lia).
    rewrite (num_leb_false _ _ Hh), (num_leb_false _ _ Hb), (num_leb_false _ _ Ht).
    cbn [orb]. replace (0 <? numLevels)%Z with true by (symmetry; apply Z.ltb_lt; exact Hl).
    replace (5 + numLevels * 3 <? Z.of_nat (List.length args))%Z with false
      by (symmetry; apply Z.ltb_ge; exact Hcount).
    rewrite levels_loop_ok; [reflexivity|].
    intros i Hi. apply in_seq in Hi. apply Hpos. lia.
  - split; [rewrite length_map, length_seq; reflexivity|].
    intros i lv Hlv. rewrite nth_error_map in Hlv.
    destruct (nth_error (seq 0 (Z.to_nat numLevels)) i) as [j|] eqn:Ej; [|discriminate].
    rewrite nth_error_seq in Ej.
    destruct (i <? Z.to_nat numLevels)%nat; [|discriminate].
    injection Ej as <-. simpl in Hlv. injection Hlv as <-.
    split; [reflexivity|].
    split; [intros Ha; simpl; apply arg_or_absent; exact Ha|].
    split; intros Ha; simpl; apply arg_or_absent; exact Ha.
Qed.

Lemma getInputs_level_defaults_witness :
  exists ls,
    getInputs (fun _ => 3%Z) (fun _ => 1) ["3"; "1"; "1"; "1"; "3"]%string =
      Some (mkInputs 3 1 1 1 3 (mkLevel 1 1 1 :: ls)) /\
    List.length ls = 3%nat.
Proof.
  destruct (getInputs_level_defaults (fun _ => 3%Z) (fun _ => 1)
              ["3"; "1"; "1"; "1"; "3"]%string) as (ls & H & Hlen & _).
  all: cbv zeta; unfold arg_or; simpl; try lia; try lra.
  - intros i Hi. destruct i as [|[|[|]]]; simpl; try lia; lra.
  - exists ls. split; [exact H|exact Hlen].
Defined.

(** ** The single-level generator: faces, normals and the written file *)

(** The wrap-around [(i === numSides - 1) ? start : current + 2] of the
    single-level loops is the next sample modulo [numSides]. *)
Lemma single_next (numSides i s : Z) :
  (0 <= i < numSides)%Z ->
  (if (i =? numSides - 1)%Z then s else (s + 2 * i + 2)%Z)
  = (s + 2 * ((i + 1) mod numSides))%Z.
Proof.
  intros Hi. destruct (i =? numSides - 1)%Z eqn:E.
  - apply Z.eqb_eq in E. replace (i + 1)%Z with numSides by lia.
    rewrite Z.mod_same by lia. lia.
  - apply Z.eqb_neq in E. rewrite Z.mod_small by lia. lia.
Qed.

Lemma flat_map_ext_in {A B} (f g : A -> list B) (l : list A) :
  (forall a, In a l -> f a = g a) -> flat_map f l = flat_map g l.
Proof.
  intros H. induction l as [|a l IH]; [reflexivity|]. simpl.
  rewrite (H a (or_introl eq_refl)), IH by (intros; apply H; right; assumption).
  reflexivity.
Qed.

(** X1: the faces of the single-level generator in closed form: base cap
    [(1, 3 + 2*next, 3 + 2i)], top cap [(2, 4 + 2i, 4 + 2*next)] and the two
    lateral triangles [(3 + 2i, 3 + 2*next, 4 + 2*next)] and
    [(3 + 2i, 4 + 2*next, 4 + 2i)] of side [i], with [next = (i + 1) mod N]. *)
Theorem single_faces_layout (numSides : Z) (HN : (1 <= numSides)%Z) :
  Single.faces numSides =
  (map (fun i => (1%Z, (3 + 2 * ((i + 1) mod numSides))%Z, (3 + 2 * i)%Z))
       (seqZ numSides),
   map (fun i => (2%Z, (4 + 2 * i)%Z, (4 + 2 * ((i + 1) mod numSides))%Z))
       (seqZ numSides),
   flat_map (fun i => [((3 + 2 * i)%Z, (3 + 2 * ((i + 1) mod numSides))%Z,
                        (4 + 2 * ((i + 1) mod numSides))%Z);
                       ((3 + 2 * i)%Z, (4 + 2 * ((i + 1) mod numSides))%Z,
                        (4 + 2 * i)%Z)])
            (seqZ numSides)).
Proof.
  unfold Single.faces. cbv zeta.
  f_equal; [f_equal|].
  - apply map_ext_in. intros i Hi. apply In_seqZ in Hi.
    rewrite (single_next numSides i 3) by exact Hi. reflexivity.
  - apply map_ext_in. intros i Hi. apply In_seqZ in Hi.
    rewrite (single_next numSides i 4) by exact Hi. reflexivity.
  - apply flat_map_ext_in. intros i Hi. apply In_seqZ in Hi.
    rewrite (single_next numSides i 3), (single_next numSides i 4) by exact Hi.
    reflexivity.
Qed.

Lemma single_faces_layout_witness :
  (1 <= 4)%Z /\ List.length (snd (Single.faces 4)) = 8%nat.
Proof.
  split; [lia|]. rewrite (single_faces_layout 4) by lia. reflexivity.
Defined.

Lemma single_normals_fold (numSides : Z) (vs : list vec3) (L : list Z)
  (ns : list vec3) (idx : list Z) :
  (forall i, In i L -> Single.side_normal numSides vs i <> None) ->
  exists out,
    fold_left (Single.normals_step numSides vs) L (Some (ns, idx)) =
    Some (ns ++ out,
          idx ++ map (fun k => Z.of_nat (List.length ns + S k)) (seq 0 (List.length L))) /\
    map Some out = map (Single.side_normal numSides vs) L.
Proof.
  revert ns idx. induction L as [|i L IH]; intros ns idx HL.
  - exists []. simpl. rewrite !app_nil_r. split; reflexivity.
  - destruct (Single.side_normal numSides vs i) as [n|] eqn:En.
    2:{ exfalso. apply (HL i); [left; reflexivity|exact En]. }
    assert (Hstep : Single.normals_step numSides vs (Some (ns, idx)) i =
                    Some (ns ++ [n], idx ++ [Z.of_nat (List.length (ns ++ [n]))]))
      by (unfold Single.normals_step; rewrite En; reflexivity).
    cbn [fold_left]. rewrite Hstep.
    destruct (IH (ns ++ [n]) (idx ++ [Z.of_nat (List.length (ns ++ [n]))]))
      as [out [Hf Hm]].
    { intros i' Hin. apply HL. right. exact Hin. }
    exists (n :: out). split.
    + rewrite Hf. rewrite <- !app_assoc. simpl.
      rewrite <- seq_shift, map_map, length_app. simpl.
      replace (List.length ns + 1)%nat with (S (List.length ns + 0)) by lia.
      erewrite map_ext; [reflexivity|]. intros k. simpl. f_equal. lia.
    + cbn [map]. rewrite Hm, En. reflexivity.
Qed.

(** The three vertex positions read by [Single.side_normal] for side [i]. *)
Lemma single_side_normal_reads (numSides : Z) (vs : list vec3) (i : Z) :
  (0 <= i < numSides)%Z ->
  Single.side_normal numSides vs i =
  match lookup vs (2 * i), lookup vs (2 * ((i + 1) mod numSides)),
        lookup vs (1 + 2 * ((i + 1) mod numSides)) with
  | Some v1, Some v2, Some v3 =>
      Some (V3.normalize (V3.cross (V3.subtract v2 v1) (V3.subtract v3 v2)))
  | _, _, _ => None
  end.
Proof.
  intros Hi. unfold Single.side_normal. cbv zeta.
  rewrite (single_next numSides i 1), (single_next numSides i 2) by exact Hi.
  replace (1 + 2 * i - 1)%Z with (2 * i)%Z by lia.
  replace (1 + 2 * ((i + 1) mod numSides) - 1)%Z with (2 * ((i + 1) mod numSides))%Z
    by lia.
  replace (2 + 2 * ((i + 1) mod numSides) - 1)%Z with (1 + 2 * ((i + 1) mod numSides))%Z
    by lia.
  reflexivity.
Qed.

Lemma single_side_normal_exists (numSides : Z) (vs : list vec3) (i : Z) :
  List.length vs = (2 + 2 * Z.to_nat numSides)%nat -> (0 <= i < numSides)%Z ->
  Single.side_normal numSides vs i <> None.
Proof.
  intros Hvs Hi. rewrite single_side_normal_reads by exact Hi.
  pose proof (Z.mod_pos_bound (i + 1) numSides ltac:(lia)).
  destruct (lookup_in_range vs (2 * i)) as [v1 ->]; [lia|lia|].
  destruct (lookup_in_range vs (2 * ((i + 1) mod numSides))) as [v2 ->]; [lia|lia|].
  destruct (lookup_in_range vs (1 + 2 * ((i + 1) mod numSides))) as [v3 ->]; [lia|lia|].
  discriminate.
Qed.

Lemma length_single_vertices (numSides : Z) (height baseRadius topRadius : R) :
  List.length (Single.vertices numSides height baseRadius topRadius)
  = (2 + 2 * Z.to_nat numSides)%nat.
Proof.
  unfold Single.vertices. rewrite length_app.
  rewrite (length_flat_map_const _ 2) by reflexivity.
  rewrite length_seqZ. simpl. lia.
Qed.

(** The result of the single-level [normals] on a buffer of 2 + 2N vertices. *)
Lemma single_normals_result (numSides : Z) (vs : list vec3) :
  (0 < numSides)%Z -> List.length vs = (2 + 2 * Z.to_nat numSides)%nat ->
  exists out,
    Single.normals numSides vs =
      Some ([mk3 0 (-1) 0; mk3 0 1 0] ++ out, 1%Z, 2%Z,
            map (fun k => Z.of_nat (2 + S k)) (seq 0 (Z.to_nat numSides))) /\
    map Some out = map (Single.side_normal numSides vs) (seqZ numSides).
Proof.
  intros HN Hvs.
  destruct (single_normals_fold numSides vs (seqZ numSides) ([mk3 0 (-1) 0] ++ [mk3 0 1 0]) [])
    as [out [Hf Hm]].
  { intros i Hin. apply In_seqZ in Hin. apply single_side_normal_exists; assumption. }
  exists out. split; [|exact Hm].
  unfold Single.normals. cbv zeta. rewrite Hf, length_seqZ. reflexivity.
Qed.

(** X2: for 3 <= N <= 36 and any height and radii, the single-level pipeline
    writes an OBJ file with 2 + 2N vertices, 2 + N normals and N + N + 2N
    faces, in which every vertex index of every face lies in [1, 2 + 2N] and
    every normal index is defined and lies in [1, 2 + N]. *)
Theorem single_obj_indices_in_range (numSides : Z) (height baseRadius topRadius : R)
  (HN : (3 <= numSides <= 36)%Z) :
  let vs := Single.vertices numSides height baseRadius topRadius in
  exists ns fb ft fs idx,
    Single.generate numSides height baseRadius topRadius
      = Written (createOBJ vs ns fb ft fs 1 2 idx) /\
    Z.of_nat (List.length vs) = (2 + 2 * numSides)%Z /\
    Z.of_nat (List.length ns) = (2 + numSides)%Z /\
    Z.of_nat (List.length fb) = numSides /\ Z.of_nat (List.length ft) = numSides /\
    Z.of_nat (List.length fs) = (2 * numSides)%Z /\
    (forall a na b nb c nc,
       In (LF a na b nb c nc) (createOBJ vs ns fb ft fs 1 2 idx) ->
       (forall v, In v [a; b; c] -> (1 <= v <= 2 + 2 * numSides)%Z) /\
       (forall m, In m [na; nb; nc] -> exists k, m = Some k /\ (1 <= k <= 2 + numSides)%Z)).
Proof.
  intros vs.
  assert (Hvs : List.length vs = (2 + 2 * Z.to_nat numSides)%nat)
    by apply length_single_vertices.
  destruct (single_normals_result numSides vs ltac:(lia) Hvs) as [out [Hres Hm]].
  assert (Hout : List.length out = Z.to_nat numSides).
  { rewrite <- (length_map Some out), Hm, length_map. apply length_seqZ. }
  set (fb := fst (fst (Single.faces numSides))).
  set (ft := snd (fst (Single.faces numSides))).
  set (fs := snd (Single.faces numSides)).
  assert (Hf : Single.faces numSides = (fb, ft, fs)) by reflexivity.
  assert (Hfb : fb = map (fun i => (1%Z, (3 + 2 * ((i + 1) mod numSides))%Z, (3 + 2 * i)%Z))
                         (seqZ numSides))
    by (unfold fb; rewrite single_faces_layout by lia; reflexivity).
  assert (Hft : ft = map (fun i => (2%Z, (4 + 2 * i)%Z, (4 + 2 * ((i + 1) mod numSides))%Z))
                         (seqZ numSides))
    by (unfold ft; rewrite single_faces_layout by lia; reflexivity).
  assert (Hfs : fs = flat_map (fun i => [((3 + 2 * i)%Z, (3 + 2 * ((i + 1) mod numSides))%Z,
                        (4 + 2 * ((i + 1) mod numSides))%Z);
                       ((3 + 2 * i)%Z, (4 + 2 * ((i + 1) mod numSides))%Z,
                        (4 + 2 * i)%Z)]) (seqZ numSides))
    by (unfold fs; rewrite single_faces_layout by lia; reflexivity).
  assert (Hlfs : List.length fs = (Z.to_nat numSides * 2)%nat)
    by (rewrite Hfs, (length_flat_map_const _ 2), length_seqZ by reflexivity; reflexivity).
  exists ([mk3 0 (-1) 0; mk3 0 1 0] ++ out), fb, ft, fs,
    (map (fun k => Z.of_nat (2 + S k)) (seq 0 (Z.to_nat numSides))).
  refine (conj _ (conj _ (conj _ (conj _ (conj _ (conj _ _)))))).
  - unfold Single.generate. fold vs. rewrite Hf, Hres. reflexivity.
  - rewrite Hvs. lia.
  - rewrite length_app, Hout. cbn [List.length]. lia.
  - rewrite Hfb, length_map, length_seqZ. lia.
  - rewrite Hft, length_map, length_seqZ. lia.
  - rewrite Hlfs. lia.
  - intros a na b nb c nc Hin.
    unfold createOBJ in Hin. rewrite !in_app_iff in Hin.
    destruct Hin as [[Hin|[]]|[[Hin|[]]|[Hin|[[Hin|[]]|[Hin|[[Hin|[]]|[Hin|[Hin|Hin]]]]]]]];
      try discriminate;
      try (apply in_map_iff in Hin as [? [Hin _]]; discriminate).
    + apply in_map_iff in Hin as [f [Hfl Hin]].
      apply face_line_inv in Hfl as (-> & -> & -> & ->).
      rewrite Hfb in Hin. apply in_map_iff in Hin as [i [Heq Hi]]. apply In_seqZ in Hi.
      symmetry in Heq. split_triple Heq.
      pose proof (Z.mod_pos_bound (i + 1) numSides ltac:(lia)).
      split.
      * intros v [<-|[<-|[<-|[]]]]; lia.
      * intros m [<-|[<-|[<-|[]]]]; exists 1%Z; split; (reflexivity || lia).
    + apply in_map_iff in Hin as [f [Hfl Hin]].
      apply face_line_inv in Hfl as (-> & -> & -> & ->).
      rewrite Hft in Hin. apply in_map_iff in Hin as [i [Heq Hi]]. apply In_seqZ in Hi.
      symmetry in Heq. split_triple Heq.
      pose proof (Z.mod_pos_bound (i + 1) numSides ltac:(lia)).
      split.
      * intros v [<-|[<-|[<-|[]]]]; lia.
      * intros m [<-|[<-|[<-|[]]]]; exists 2%Z; split; (reflexivity || lia).
    + apply In_side_lines in Hin as [p [f [Hp [Hfi Heq]]]].
      symmetry in Heq. apply face_line_inv in Heq as (-> & -> & -> & ->).
      split.
      * rewrite Hfs in Hfi. apply in_flat_map in Hfi as [i [Hi Hfi]]. apply In_seqZ in Hi.
        pose proof (Z.mod_pos_bound (i + 1) numSides ltac:(lia)).
        destruct Hfi as [Heq|[Heq|[]]]; split_triple Heq;
          intros v [<-|[<-|[<-|[]]]]; lia.
      * assert (Hp2 : (Nat.div p 2 < Z.to_nat numSides)%nat)
          by (apply Nat.Div0.div_lt_upper_bound; lia).
        rewrite nth_error_map, nth_error_seq.
        apply Nat.ltb_lt in Hp2. rewrite Hp2. apply Nat.ltb_lt in Hp2.
        intros m [<-|[<-|[<-|[]]]]; eexists; split; try reflexivity; lia.
Qed.

Lemma single_obj_indices_in_range_witness :
  (3 <= 4 <= 36)%Z /\ exists lines, Single.generate 4 1 2 1 = Written lines.
Proof.
  split; [lia|].
  destruct (single_obj_indices_in_range 4 1 2 1) as (ns & fb & ft & fs & idx & H & _);
    [lia|].
  eexists. exact H.
Defined.


(** X4: for 3 <= N <= 36 and any vertex buffer of 2 + 2N vertices, the
    normal the single-level [normals] stores for side [i], 1 <= i <= N - 2, is
    computed from the three vertices of the first lateral triangle of side
    [i - 1], not of side [i]: [normalize (cross (vb - va) (vc - vb))] for that
    triangle [(a, b, c)]. *)
Theorem single_normal_reads_previous_side (numSides : Z) (vs : list vec3) (i : Z)
  (HN : (3 <= numSides <= 36)%Z)
  (Hvs : List.length vs = (2 + 2 * Z.to_nat numSides)%nat)
  (Hi : (1 <= i <= numSides - 2)%Z) :
  exists a b c va vb vc,
    nth_error (snd (Single.faces numSides)) (2 * Z.to_nat (i - 1)) = Some (a, b, c) /\
    lookup vs (a - 1) = Some va /\ lookup vs (b - 1) = Some vb /\
    lookup vs (c - 1) = Some vc /\
    Single.side_normal numSides vs i
      = Some (V3.normalize (V3.cross (V3.subtract vb va) (V3.subtract vc vb))).
Proof.
  assert (Hm : ((i - 1 + 1) mod numSides = i)%Z)
    by (replace (i - 1 + 1)%Z with i by lia; apply Z.mod_small; lia).
  assert (Hm' : ((i + 1) mod numSides = i + 1)%Z) by (apply Z.mod_small; lia).
  destruct (lookup_in_range vs (2 * i)) as [va Ha]; [lia|lia|].
  destruct (lookup_in_range vs (2 * i + 2)) as [vb Hb]; [lia|lia|].
  destruct (lookup_in_range vs (2 * i + 3)) as [vc Hc]; [lia|lia|].
  exists (3 + 2 * (i - 1))%Z, (3 + 2 * ((i - 1 + 1) mod numSides))%Z,
    (4 + 2 * ((i - 1 + 1) mod numSides))%Z, va, vb, vc.
  refine (conj _ (conj _ (conj _ (conj _ _)))).
  - rewrite single_faces_layout by lia. simpl snd.
    replace (2 * Z.to_nat (i - 1))%nat with (Z.to_nat (i - 1) * 2 + 0)%nat by lia.
    rewrite (nth_error_flat_map_const _ 2 _ _ 0 (i - 1)%Z); [reflexivity|reflexivity| |lia].
    rewrite nth_error_seqZ by lia. rewrite Z2Nat.id by lia. reflexivity.
  - replace (3 + 2 * (i - 1) - 1)%Z with (2 * i)%Z by lia. exact Ha.
  - rewrite Hm. replace (3 + 2 * i - 1)%Z with (2 * i + 2)%Z by lia. exact Hb.
  - rewrite Hm. replace (4 + 2 * i - 1)%Z with (2 * i + 3)%Z by lia. exact Hc.
  - rewrite single_side_normal_reads by lia. rewrite Hm'.
    replace (1 + 2 * (i + 1))%Z with (2 * i + 3)%Z by lia.
    replace (2 * (i + 1))%Z with (2 * i + 2)%Z by lia.
    rewrite Ha, Hb, Hc. reflexivity.
Qed.

Lemma single_normal_reads_previous_side_witness :
  exists a b c va vb vc,
    nth_error (snd (Single.faces 4)) (2 * Z.to_nat (1 - 1)) = Some (a, b, c) /\
    lookup (Single.vertices 4 1 2 1) (a - 1) = Some va /\
    lookup (Single.vertices 4 1 2 1) (b - 1) = Some vb /\
    lookup (Single.vertices 4 1 2 1) (c - 1) = Some vc /\
    Single.side_normal 4 (Single.vertices 4 1 2 1) 1
      = Some (V3.normalize (V3.cross (V3.subtract vb va) (V3.subtract vc vb))).
Proof.
  apply single_normal_reads_previous_side; [lia|apply length_single_vertices|lia].
Defined.

(** A normal computed from a cap-adjacent triangle: the edges are a
    horizontal radius of length [b] and a vertical segment of length [h]. *)
Lemma cap_cross_nonzero (c s b h x z : R) :
  0 < b -> 0 < h -> c * c + s * s = 1 ->
  x * x + z * z = (c * b * h) * (c * b * h) + (s * b * h) * (s * b * h) ->
  mk3 x 0 z <> mk3 0 0 0.
Proof.
  intros Hb Hh Hcs Hxz Heq. unfold mk3 in Heq. injection Heq as Ex Ez. subst x z.
  assert (E : (b * h) * (b * h) * (c * c + s * s) = 0) by nra.
  rewrite Hcs in E. assert (0 < b * h) by (apply Rmult_lt_0_compat; assumption). nra.
Qed.

Lemma some_eq {A} (x y : A) : Some x = Some y -> x = y.
Proof. congruence. Qed.

Lemma cos_sin_unit (t : R) : cos t * cos t + sin t * sin t = 1.
Proof. pose proof (sin2_cos2 t) as H. unfold Rsqr in H. lra. Qed.

Lemma in_map_some {A B} (f : A -> option B) (l : list A) (out : list B) (y : B) :
  map Some out = map f l -> In y out -> exists x, In x l /\ f x = Some y.
Proof.
  intros Hm Hy. assert (H : In (Some y) (map f l)).
  { rewrite <- Hm. apply in_map. exact Hy. }
  apply in_map_iff in H as [x [Hx Hin]]. exists x. auto.
Qed.

(** X5: for 3 <= N <= 36, positive height and positive base radius, every
    normal listed by the single-level [normals] is a unit vector: none of the
    side triangles it reads (including the ones through the cap centres) is
    degenerate. *)
Theorem single_normals_unit (numSides : Z) (height baseRadius topRadius : R)
  (HN : (3 <= numSides <= 36)%Z) (Hh : 0 < height) (Hb : 0 < baseRadius) :
  exists ns idx,
    Single.normals numSides (Single.vertices numSides height baseRadius topRadius)
      = Some (ns, 1%Z, 2%Z, idx) /\
    Forall (fun n => V3.dot n n = 1) ns.
Proof.
  set (vs := Single.vertices numSides height baseRadius topRadius).
  destruct (single_normals_result numSides vs ltac:(lia)
              (length_single_vertices numSides height baseRadius topRadius))
    as [out [Hres Hm]].
  eexists _, _. split; [exact Hres|].
  apply Forall_app. split.
  { repeat constructor; unfold V3.dot, mk3; ring. }
  apply Forall_forall. intros n Hn.
  destruct (in_map_some _ _ _ _ Hm Hn) as [i [Hi Hn']]. apply In_seqZ in Hi.
  rewrite single_side_normal_reads in Hn' by exact Hi.
  set (step := 2 * PI / IZR numSides) in *.
  assert (Hc0 : lookup vs 0 = Some (mk3 0 0 0)) by reflexivity.
  assert (Hc1 : lookup vs 1 = Some (mk3 0 height 0)) by reflexivity.
  destruct (Z.eq_dec i 0) as [->|Hi0]; [|destruct (Z.eq_dec i (numSides - 1)) as [->|Hi1]].
  - (* side 0: baseCenter, base_0, top_0 *)
    rewrite (Z.mod_small (0 + 1)) in Hn' by lia.
    destruct (single_vertices_lookup numSides height baseRadius topRadius 0 ltac:(lia))
      as [Hb0 Ht0].
    cbv zeta in Hb0, Ht0. fold vs step in Hb0, Ht0.
    replace (2 * 0)%Z with 0%Z in Hn' by reflexivity.
    replace (1 + 2 * (0 + 1))%Z with (3 + 2 * 0)%Z in Hn' by reflexivity.
    replace (2 * (0 + 1))%Z with (2 + 2 * 0)%Z in Hn' by reflexivity.
    rewrite Hc0, Hb0, Ht0 in Hn'. apply some_eq in Hn'. subst n.
    apply normalize_unit.
    set (c := cos (IZR 0 * step)). set (s := sin (IZR 0 * step)).
    unfold V3.cross, V3.subtract, mk3.
    replace (0 * (s * topRadius - s * baseRadius) - (s * baseRadius - 0) * (height - 0))
      with (- (s * baseRadius * height)) by ring.
    replace ((s * baseRadius - 0) * (c * topRadius - c * baseRadius)
             - (c * baseRadius - 0) * (s * topRadius - s * baseRadius)) with 0 by ring.
    apply (cap_cross_nonzero c s baseRadius height); [exact Hb|exact Hh|apply cos_sin_unit|].
    ring.
  - (* side N - 1: base_(N-2), baseCenter, topCenter *)
    assert (Hw : ((numSides - 1 + 1) mod numSides = 0)%Z)
      by (replace (numSides - 1 + 1)%Z with numSides by lia; apply Z.mod_same; lia).
    rewrite Hw in Hn'.
    destruct (single_vertices_lookup numSides height baseRadius topRadius (numSides - 2)
                ltac:(lia)) as [Hbl _].
    cbv zeta in Hbl. fold vs step in Hbl.
    replace (2 * (numSides - 1))%Z with (2 + 2 * (numSides - 2))%Z in Hn' by lia.
    replace (2 * 0)%Z with 0%Z in Hn' by reflexivity.
    replace (1 + 0)%Z with 1%Z in Hn' by reflexivity.
    rewrite Hbl, Hc0, Hc1 in Hn'. apply some_eq in Hn'. subst n.
    apply normalize_unit.
    set (c := cos (IZR (numSides - 2) * step)). set (s := sin (IZR (numSides - 2) * step)).
    unfold V3.cross, V3.subtract, mk3.
    replace ((0 - 0) * (0 - 0) - (0 - s * baseRadius) * (height - 0))
      with (s * baseRadius * height) by ring.
    replace ((0 - s * baseRadius) * (0 - 0) - (0 - c * baseRadius) * (0 - 0)) with 0 by ring.
    apply (cap_cross_nonzero c s baseRadius height); [exact Hb|exact Hh|apply cos_sin_unit|].
    ring.
  - (* sides 1 .. N - 2: base_(i-1), base_i, top_i *)
    assert (Hm' : ((i + 1) mod numSides = i + 1)%Z) by (apply Z.mod_small; lia).
    rewrite Hm' in Hn'.
    destruct (single_vertices_lookup numSides height baseRadius topRadius (i - 1) ltac:(lia))
      as [Hbp _].
    destruct (single_vertices_lookup numSides height baseRadius topRadius i ltac:(lia))
      as [Hbi Hti].
    cbv zeta in Hbp, Hbi, Hti. fold vs step in Hbp, Hbi, Hti.
    replace (2 * i)%Z with (2 + 2 * (i - 1))%Z in Hn' by lia.
    replace (1 + 2 * (i + 1))%Z with (3 + 2 * i)%Z in Hn' by lia.
    replace (2 * (i + 1))%Z with (2 + 2 * i)%Z in Hn' by lia.
    rewrite Hbp, Hbi, Hti in Hn'. apply some_eq in Hn'. subst n.
    apply normalize_unit. rewrite cross_edge_conventions.
    pose proof (sample_sine_pos numSides (i - 1) ltac:(lia) ltac:(lia)) as HD.
    cbv zeta in HD. fold step in HD.
    replace ((i - 1 + 1) mod numSides)%Z with i in HD
      by (replace (i - 1 + 1)%Z with i by lia; symmetry; apply Z.mod_small; lia).
    apply (lateral_cross_nonzero _ _ _ _ 0 baseRadius height topRadius Hb); [|exact HD].
    intros E. injection E. lra.
Qed.

Lemma single_normals_unit_witness :
  exists ns idx,
    Single.normals 4 (Single.vertices 4 1 2 1) = Some (ns, 1%Z, 2%Z, idx) /\
    Forall (fun n => V3.dot n n = 1) ns.
Proof. apply single_normals_unit; lra || lia. Defined.

(** ** The multi-level command line *)

Lemma levels_loop_some (parseFloat : string -> R) (args : list string)
  (h b t : R) (is : list nat) (ls : list level) :
  levels_loop parseFloat args h b t is = Some ls ->
  List.length ls = List.length is /\
  Forall (fun l => 0 < height l /\ 0 < baseRadius l /\ 0 < topRadius l) ls.
Proof.
  revert ls. induction is as [|i rest IH]; intros ls H.
  - injection H as <-. split; [reflexivity|constructor].
  - cbn [levels_loop] in H.
    destruct (num_leb (arg_or parseFloat args (5 + i * 3) h) 0) eqn:E1;
      [discriminate|].
    destruct (num_leb (arg_or parseFloat args (6 + i * 3) b) 0) eqn:E2;
      [discriminate|].
    destruct (num_leb (arg_or parseFloat args (7 + i * 3) t) 0) eqn:E3;
      [discriminate|].
    cbn [orb] in H.
    destruct (levels_loop parseFloat args h b t rest) as [ls'|] eqn:E;
      [|discriminate].
    injection H as <-. destruct (IH ls' eq_refl) as [Hl Hf].
    unfold num_leb in E1, E2, E3.
    destruct (Rle_dec _ 0) as [|N1] in E1; [discriminate|].
    destruct (Rle_dec _ 0) as [|N2] in E2; [discriminate|].
    destruct (Rle_dec _ 0) as [|N3] in E3; [discriminate|].
    apply Rnot_le_lt in N1, N2, N3.
    split; [simpl; rewrite Hl; reflexivity|].
    constructor; [simpl; auto|exact Hf].
Qed.

(** What [getInputs] returns: valid base values, and levels made of the base
    level followed by one level per iteration of the level loop. *)
Lemma getInputs_some (parseInt : string -> Z) (parseFloat : string -> R)
  (args : list string) (inp : inputs) :
  getInputs parseInt parseFloat args = Some inp ->
  (3 <= in_numSides inp <= 36)%Z /\
  0 < in_height inp /\ 0 < in_baseRadius inp /\ 0 < in_topRadius inp /\
  (exists rest,
     in_levels inp = mkLevel (in_height inp) (in_baseRadius inp) (in_topRadius inp) :: rest /\
     List.length rest = Z.to_nat (in_numLevels inp)) /\
  Forall (fun l => 0 < height l /\ 0 < baseRadius l /\ 0 < topRadius l) (in_levels inp).
Proof.
  unfold getInputs. intros H.
  destruct ((arg_or parseInt args 0 8 <? 3)%Z || (36 <? arg_or parseInt args 0 8)%Z) eqn:E1;
    [discriminate|].
  apply Bool.orb_false_iff in E1 as [E1a E1b].
  apply Z.ltb_ge in E1a. apply Z.ltb_ge in E1b.
  destruct (num_leb (arg_or parseFloat args 1 6) 0) eqn:E2; [discriminate|].
  destruct (num_leb (arg_or parseFloat args 2 1) 0) eqn:E3; [discriminate|].
  destruct (num_leb (arg_or parseFloat args 3 (8 / 10)) 0) eqn:E4; [discriminate|].
  cbn [orb] in H.
  unfold num_leb in E2, E3, E4.
  destruct (Rle_dec _ 0) as [|Hh] in E2; [discriminate|].
  destruct (Rle_dec _ 0) as [|Hb] in E3; [discriminate|].
  destruct (Rle_dec _ 0) as [|Ht] in E4; [discriminate|].
  apply Rnot_le_lt in Hh, Hb, Ht.
  destruct (0 <? arg_or parseInt args 4 0)%Z eqn:E5.
  - destruct (5 + arg_or parseInt args 4 0 * 3 <? Z.of_nat (List.length args))%Z;
      [discriminate|].
    match type of H with
    | match ?m with _ => _ end = _ => destruct m as [ls|] eqn:El; [|discriminate]
    end.
    injection H as <-. cbn [in_numSides in_height in_baseRadius in_topRadius in_levels in_numLevels].
    destruct (levels_loop_some _ _ _ _ _ _ _ El) as [Hl Hf].
    split; [lia|]. split; [lra|]. split; [lra|]. split; [lra|].
    split.
    + exists ls. split; [reflexivity|]. rewrite Hl, length_seq. reflexivity.
    + constructor; [cbn [height baseRadius topRadius]; lra|exact Hf].
  - injection H as <-. cbn [in_numSides in_height in_baseRadius in_topRadius in_levels in_numLevels].
    apply Z.ltb_ge in E5.
    split; [lia|]. split; [lra|]. split; [lra|]. split; [lra|].
    split.
    + exists []. split; [reflexivity|]. cbn [List.length]. lia.
    + constructor; [cbn [height baseRadius topRadius]; lra|constructor].
Qed.

(** The pipeline writes a file for every valid [numSides] and non-empty
    level list. *)
Lemma generate_written (numSides : Z) (levels : list level) :
  (3 <= numSides <= 36)%Z -> levels <> [] ->
  exists lines, generate numSides levels = Written lines.
Proof.
  intros HN Hne.
  destruct (vertices_result numSides levels Hne) as [vs [Hv Hvlen]].
  assert (HR : (1 <= List.length (buildRings levels))%nat).
  { pose proof (buildRings_nonempty levels Hne) as H.
    destruct (buildRings levels); [congruence|simpl; lia]. }
  destruct (normals_result numSides vs (buildRings levels)) as [out [Hres _]];
    [lia|exact HR|exact Hvlen|].
  unfold generate. rewrite Hv.
  destruct (faces numSides (buildRings levels)) as [[fb ft] fs].
  rewrite Hres. eexists. reflexivity.
Qed.

(** [getInputs] once the base values have passed validation. *)
Lemma getInputs_valid_base (parseInt : string -> Z) (parseFloat : string -> R)
  (args : list string) :
  let numSides := arg_or parseInt args 0 8%Z in
  let height := arg_or parseFloat args 1 6 in
  let baseRadius := arg_or parseFloat args 2 1 in
  let topRadius := arg_or parseFloat args 3 (8 / 10) in
  let numLevels := arg_or parseInt args 4 0%Z in
  (3 <= numSides <= 36)%Z -> 0 < height -> 0 < baseRadius -> 0 < topRadius ->
  getInputs parseInt parseFloat args =
    let base := mkLevel height baseRadius topRadius in
    if (0 <? numLevels)%Z then
      if (5 + numLevels * 3 <? Z.of_nat (List.length args))%Z then None
      else
        match levels_loop parseFloat args height baseRadius topRadius
                (seq 0 (Z.to_nat numLevels)) with
        | None => None
        | Some ls =>
            Some (mkInputs numSides height baseRadius topRadius numLevels (base :: ls))
        end
    else Some (mkInputs numSides height baseRadius topRadius numLevels [base]).
Proof.
  intros numSides height baseRadius topRadius numLevels HN Hh Hb Ht.
  unfold getInputs. fold numSides height baseRadius topRadius numLevels.
  replace ((numSides <? 3)%Z || (36 <? numSides)%Z) with false
    by (symmetry; apply Bool.orb_false_iff; split; apply Z.ltb_ge; lia).
  rewrite (num_leb_false _ _ Hh), (num_leb_false _ _ Hb), (num_leb_false _ _ Ht).
  reflexivity.
Qed.



(** X7: the multi-level script never fails after validation: [main] either
    exits with status 1 or writes an OBJ file. *)
Theorem main_exit_or_written (parseInt : string -> Z) (parseFloat : string -> R)
  (args : list string) :
  main parseInt parseFloat args = Exit1 \/
  exists lines, main parseInt parseFloat args = Written lines.
Proof.
  unfold main.
  destruct (getInputs parseInt parseFloat args) as [inp|] eqn:E; [right|left; reflexivity].
  destruct (getInputs_some _ _ _ _ E) as (HN & _ & _ & _ & (rest & Hl & _) & _).
  apply generate_written; [exact HN|]. rewrite Hl. discriminate.
Qed.

(** X8: with valid base values and a number of levels that is absent or not
    positive, [getInputs] returns the base level alone, whatever further
    arguments follow. *)
Theorem getInputs_no_extra_levels (parseInt : string -> Z) (parseFloat : string -> R)
  (args : list string)
  (HN : (3 <= arg_or parseInt args 0 8 <= 36)%Z)
  (Hh : 0 < arg_or parseFloat args 1 6)
  (Hb : 0 < arg_or parseFloat args 2 1)
  (Ht : 0 < arg_or parseFloat args 3 (8 / 10))
  (Hl : (arg_or parseInt args 4 0 <= 0)%Z) :
  getInputs parseInt parseFloat args =
    Some (mkInputs (arg_or parseInt args 0 8%Z) (arg_or parseFloat args 1 6)
            (arg_or parseFloat args 2 1) (arg_or parseFloat args 3 (8 / 10))
            (arg_or parseInt args 4 0%Z)
            [mkLevel (arg_or parseFloat args 1 6) (arg_or parseFloat args 2 1)
                     (arg_or parseFloat args 3 (8 / 10))]).
Proof.
  rewrite (getInputs_valid_base parseInt parseFloat args HN Hh Hb Ht).
  cbv zeta. replace (0 <? arg_or parseInt args 4 0)%Z with false
    by (symmetry; apply Z.ltb_ge; lia).
  reflexivity.
Qed.

Lemma getInputs_no_extra_levels_witness :
  let pI := fun s => if String.eqb s "4" then 4%Z else (-2)%Z in
  let args := ["4"; "1"; "1"; "1"; "-2"; "5"; "5"; "5"]%string in
  getInputs pI (fun _ => 1) args =
    Some (mkInputs 4 1 1 1 (-2) [mkLevel 1 1 1]).
Proof.
  intros pI args.
  refine (getInputs_no_extra_levels pI (fun _ => 1) args _ _ _ _ _);
    unfold arg_or, pI; simpl; first [lia|lra].
Defined.

(** X9: with valid base values and a positive number of levels n, more than
    5 + 3n arguments make [getInputs] fail (exit status 1). *)
Theorem getInputs_too_many_args (parseInt : string -> Z) (parseFloat : string -> R)
  (args : list string)
  (HN : (3 <= arg_or parseInt args 0 8 <= 36)%Z)
  (Hh : 0 < arg_or parseFloat args 1 6)
  (Hb : 0 < arg_or parseFloat args 2 1)
  (Ht : 0 < arg_or parseFloat args 3 (8 / 10))
  (Hl : (0 < arg_or parseInt args 4 0)%Z)
  (Hlen : (5 + arg_or parseInt args 4 0 * 3 < Z.of_nat (List.length args))%Z) :
  getInputs parseInt parseFloat args = None.
Proof.
  rewrite (getInputs_valid_base parseInt parseFloat args HN Hh Hb Ht).
  cbv zeta. apply Z.ltb_lt in Hl, Hlen. rewrite Hl, Hlen. reflexivity.
Qed.

Lemma getInputs_too_many_args_witness :
  let pI := fun s => if String.eqb s "4" then 4%Z else 1%Z in
  let args := ["4"; "1"; "1"; "1"; "1"; "2"; "1"; "1"; "9"]%string in
  getInputs pI (fun _ => 1) args = None.
Proof.
  intros pI args.
  refine (getInputs_too_many_args pI (fun _ => 1) args _ _ _ _ _ _);
    unfold arg_or, pI; simpl; first [lia|lra].
Defined.

(** ** Composition of the ring builder *)

Lemma buildRings_loop_app2 (xs ys : list level) (rings : list ring) (y : R) :
  buildRings_loop (xs ++ ys) rings y =
  buildRings_loop ys (buildRings_loop xs rings y)
    (fold_left (fun acc lv => acc + height lv) xs y).
Proof.
  revert rings y. induction xs as [|l xs IH]; intros rings y; [reflexivity|].
  cbn [app buildRings_loop fold_left]. apply IH.
Qed.

Lemma isUniqueRing_below (rs : list ring) (y r : R) :
  Forall (fun rg => ring_y rg < y) rs -> isUniqueRing rs y r = true.
Proof.
  intros Hf. unfold isUniqueRing. apply forallb_forall. intros rg Hin.
  rewrite Forall_forall in Hf. specialize (Hf rg Hin).
  rewrite (num_eqb_neq (ring_y rg) y) by lra. reflexivity.
Qed.

Lemma isUniqueRing_last (rs : list ring) (y t b : R) :
  Forall (fun rg => ring_y rg < y) rs ->
  isUniqueRing (rs ++ [mkRing y t]) y b = negb (num_eqb t b).
Proof.
  intros Hf. unfold isUniqueRing. rewrite forallb_app.
  change (forallb _ rs) with (isUniqueRing rs y b).
  rewrite isUniqueRing_below by exact Hf. cbn [forallb ring_y ring_r].
  rewrite num_eqb_refl. destruct (num_eqb t b); reflexivity.
Qed.

(** One pass of the loop when all rings lie at or below [currentY]: the
    upper ring is always pushed. *)
Lemma buildRings_loop_one (l : level) (rings : list ring) (y : R) :
  0 < height l -> Forall (fun rg => ring_y rg <= y) rings ->
  buildRings_loop [l] rings y =
  (if isUniqueRing rings y (baseRadius l)
   then rings ++ [mkRing y (baseRadius l)] else rings)
  ++ [mkRing (y + height l) (topRadius l)].
Proof.
  intros Hh Hf. cbn [buildRings_loop]. rewrite existsb_ring_spec.
  rewrite isUniqueRing_below; [reflexivity|].
  destruct (isUniqueRing rings y (baseRadius l)).
  - apply Forall_app. split.
    + eapply Forall_impl; [|exact Hf]. intros rg; lra.
    + constructor; [cbn [ring_y]; lra|constructor].
  - eapply Forall_impl; [|exact Hf]. intros rg; lra.
Qed.

Lemma buildRings_loop_below (xs : list level) (rings : list ring) (y : R) :
  Forall (fun l => 0 < height l) xs ->
  Forall (fun rg => ring_y rg <= y) rings ->
  Forall (fun rg => ring_y rg <= fold_left (fun acc lv => acc + height lv) xs y)
    (buildRings_loop xs rings y) /\
  y <= fold_left (fun acc lv => acc + height lv) xs y.
Proof.
  revert rings y. induction xs as [|l xs IH]; intros rings y Hpos Hf.
  - split; [exact Hf|apply Rle_refl].
  - inversion Hpos as [|? ? Hh Hrest]; subst.
    change (l :: xs) with ([l] ++ xs).
    rewrite buildRings_loop_app2, buildRings_loop_one by assumption.
    cbn [fold_left]. rewrite fold_left_app. cbn [fold_left].
    destruct (IH ((if isUniqueRing rings y (baseRadius l)
                   then rings ++ [mkRing y (baseRadius l)] else rings)
                  ++ [mkRing (y + height l) (topRadius l)]) (y + height l) Hrest)
      as [H1 H2].
    + apply Forall_app. split; [|constructor; [cbn [ring_y]; lra|constructor]].
      destruct (isUniqueRing rings y (baseRadius l)).
      * apply Forall_app. split.
        -- eapply Forall_impl; [|exact Hf]. intros rg; lra.
        -- constructor; [cbn [ring_y]; lra|constructor].
      * eapply Forall_impl; [|exact Hf]. intros rg; lra.
    + split; [exact H1|lra].
Qed.

(** The rings of a non-empty list of positive-height levels end with the top
    ring of the last level, at the total height, above all other rings. *)
Lemma buildRings_snoc_last (ls : list level) (lp : level) :
  Forall (fun l => 0 < height l) (ls ++ [lp]) ->
  exists P,
    buildRings (ls ++ [lp]) =
      P ++ [mkRing (fold_left (fun acc lv => acc + height lv) (ls ++ [lp]) 0) (topRadius lp)] /\
    Forall (fun rg => ring_y rg < fold_left (fun acc lv => acc + height lv) (ls ++ [lp]) 0) P.
Proof.
  intros Hpos. apply Forall_app in Hpos as [Hls Hlp].
  inversion Hlp as [|? ? Hh _]; subst.
  unfold buildRings. rewrite buildRings_loop_app2, fold_left_app. cbn [fold_left].
  destruct (buildRings_loop_below ls [] 0 Hls (Forall_nil _)) as [Hb _].
  rewrite buildRings_loop_one by assumption.
  eexists. split; [reflexivity|].
  destruct (isUniqueRing _ _ (baseRadius lp)).
  - apply Forall_app. split.
    + eapply Forall_impl; [|exact Hb]. intros rg; lra.
    + constructor; [cbn [ring_y]; lra|constructor].
  - eapply Forall_impl; [|exact Hb]. intros rg; lra.
Qed.

(** X10: appending a level [l] on top of the levels [ls ++ [lp]] (all of
    positive height) appends to their rings the base ring of [l] at the total
    height H of [ls ++ [lp]] unless the joint is flush (top radius of [lp] =
    base radius of [l]), then always the top ring of [l] at H + height l.
    Earlier rings are never changed. *)
Theorem buildRings_snoc (ls : list level) (lp l : level)
  (Hpos : Forall (fun lv => 0 < height lv) (ls ++ [lp; l])) :
  let H := fold_left (fun acc lv => acc + height lv) (ls ++ [lp]) 0 in
  buildRings (ls ++ [lp; l]) =
    buildRings (ls ++ [lp]) ++
    (if num_eqb (topRadius lp) (baseRadius l) then []
     else [mkRing H (baseRadius l)]) ++
    [mkRing (H + height l) (topRadius l)].
Proof.
  intros H.
  replace (ls ++ [lp; l]) with ((ls ++ [lp]) ++ [l]) in *
    by (rewrite <- app_assoc; reflexivity).
  apply Forall_app in Hpos as [Hfront Hl].
  inversion Hl as [|? ? Hh _]; subst.
  destruct (buildRings_snoc_last ls lp Hfront) as [P [HP Hbelow]]. fold H in HP, Hbelow.
  unfold buildRings in *. rewrite buildRings_loop_app2. fold H.
  rewrite HP, buildRings_loop_one.
  - rewrite isUniqueRing_last by exact Hbelow.
    destruct (num_eqb (topRadius lp) (baseRadius l)); cbn [negb];
      rewrite <- ?app_assoc; reflexivity.
  - exact Hh.
  - apply Forall_app. split; [|constructor; [cbn [ring_y]; lra|constructor]].
    eapply Forall_impl; [|exact Hbelow]. intros rg; lra.
Qed.

Lemma buildRings_snoc_witness :
  Forall (fun lv => 0 < height lv) ([] ++ [mkLevel 1 2 1; mkLevel 1 1 1]) /\
  buildRings ([] ++ [mkLevel 1 2 1; mkLevel 1 1 1]) =
    buildRings ([] ++ [mkLevel 1 2 1]) ++
    (if num_eqb 1 1 then [] else [mkRing (0 + 1) 1]) ++ [mkRing (0 + 1 + 1) 1].
Proof.
  assert (Hp : Forall (fun lv => 0 < height lv) ([] ++ [mkLevel 1 2 1; mkLevel 1 1 1]))
    by (repeat constructor; cbn [height]; lra).
  split; [exact Hp|].
  exact (buildRings_snoc [] (mkLevel 1 2 1) (mkLevel 1 1 1) Hp).
Defined.

(** X11: for a non-empty list of positive-height levels, the first ring is
    the base ring of the first level at elevation 0, and the last ring is the
    top ring of the last level, at the sum of all heights, strictly above
    every other ring. *)
Theorem buildRings_first_last (levels : list level) (first lst : level)
  (Hpos : Forall (fun lv => 0 < height lv) levels)
  (Hfirst : hd_error levels = Some first)
  (Hlast : last levels first = lst) :
  exists P rest,
    buildRings levels = mkRing 0 (baseRadius first) :: rest /\
    buildRings levels =
      P ++ [mkRing (fold_left (fun acc lv => acc + height lv) levels 0) (topRadius lst)] /\
    Forall (fun rg => ring_y rg < fold_left (fun acc lv => acc + height lv) levels 0) P.
Proof.
  destruct levels as [|l0 ls0]; [discriminate|].
  injection Hfirst as <-.
  destruct (buildRings_cons l0 ls0) as [rest Hrest].
  assert (Hne : l0 :: ls0 <> []) by discriminate.
  destruct (exists_last Hne) as [ls [lp Heq]].
  rewrite Heq in Hpos, Hlast |- *. rewrite last_last in Hlast. subst lst.
  destruct (buildRings_snoc_last ls lp Hpos) as [P [HP Hb]].
  exists P, rest. split; [rewrite <- Heq; exact Hrest|]. split; assumption.
Qed.

Lemma buildRings_first_last_witness :
  Forall (fun lv => 0 < height lv) [mkLevel 1 2 1; mkLevel 2 1 1] /\
  exists P rest,
    buildRings [mkLevel 1 2 1; mkLevel 2 1 1] = mkRing 0 2 :: rest /\
    buildRings [mkLevel 1 2 1; mkLevel 2 1 1] = P ++ [mkRing (0 + 1 + 2) 1].
Proof.
  assert (Hp : Forall (fun lv => 0 < height lv) [mkLevel 1 2 1; mkLevel 2 1 1])
    by (repeat constructor; cbn [height]; lra).
  split; [exact Hp|].
  destruct (buildRings_first_last [mkLevel 1 2 1; mkLevel 2 1 1]
              (mkLevel 1 2 1) (mkLevel 2 1 1) Hp eq_refl eq_refl)
    as (P & rest & H1 & H2 & _).
  exists P, rest. split; [exact H1|exact H2].
Defined.

(** ** Orientation of the lateral normals for any stack of levels *)

Lemma StronglySorted_nth_succ {A} (le : A -> A -> Prop) (l : list A) (j : nat) (a b : A) :
  StronglySorted le l -> nth_error l j = Some a -> nth_error l (S j) = Some b -> le a b.
Proof.
  revert j. induction l as [|x l IH]; intros j Hs Ha Hb; [destruct j; discriminate|].
  apply StronglySorted_inv in Hs as [Hs Hf].
  destruct j as [|j].
  - injection Ha as <-. rewrite Forall_forall in Hf. apply Hf.
    apply (nth_error_In l 0). exact Hb.
  - exact (IH j Hs Ha Hb).
Qed.

(** A lateral triangle of a flat band (both rings at the same elevation [y])
    has a vertical normal, whose sign is that of [r2 - r1]. *)
Lemma lateral_normal_flat (c s c' s' y r1 r2 : R) :
  0 < r1 -> r1 <> r2 -> 0 < c * s' - s * c' ->
  let v1 := mk3 (c * r1) y (s * r1) in
  let v2 := mk3 (c' * r1) y (s' * r1) in
  let v3 := mk3 (c' * r2) y (s' * r2) in
  V3.normalize (V3.cross (V3.subtract v2 v1) (V3.subtract v3 v1)) =
    mk3 0 (if Rlt_dec r2 r1 then -1 else 1) 0.
Proof.
  intros Hr1 Hne HD v1 v2 v3.
  set (Y := r1 * (r2 - r1) * (c * s' - s * c')).
  assert (Hc : V3.cross (V3.subtract v2 v1) (V3.subtract v3 v1) = mk3 0 Y 0).
  { unfold v1, v2, v3, Y, V3.cross, V3.subtract, mk3. f_equal; [f_equal|]; ring. }
  rewrite Hc. unfold V3.normalize, V3.length, V3.dot, mk3.
  replace (0 * 0 + Y * Y + 0 * 0) with (Rsqr Y) by (unfold Rsqr; ring).
  rewrite sqrt_Rsqr_abs.
  destruct (Rlt_dec r2 r1) as [Hlt|Hge].
  - assert (HY : Y < 0).
    { unfold Y. assert (0 < r1 * (r1 - r2) * (c * s' - s * c')).
      { apply Rmult_lt_0_compat; [apply Rmult_lt_0_compat|]; lra. }
      nra. }
    rewrite Rabs_left by exact HY. f_equal; [f_equal|]; field; lra.
  - assert (HY : 0 < Y).
    { unfold Y. apply Rmult_lt_0_compat; [apply Rmult_lt_0_compat|]; lra. }
    rewrite Rabs_right by lra. f_equal; [f_equal|]; field; lra.
Qed.

(** X12: for 3 <= N <= 36 and a non-empty list of levels with positive heights
    and radii, every lateral quad between consecutive rings j and j+1 has the
    lower ring at or below the upper one; when it rises, its normal has a
    negative dot product with the outward radial direction; when the band is
    flat (same elevation) its normal is (0, -1, 0) if the radius shrinks and
    (0, 1, 0) if it grows. *)
Theorem lateral_normals_orientation (numSides : Z) (levels : list level)
  (HN : (3 <= numSides <= 36)%Z) (Hne : levels <> [])
  (Hpos : Forall (fun l => 0 < height l /\ 0 < baseRadius l /\ 0 < topRadius l) levels) :
  exists vs, vertices numSides levels = Some (vs, buildRings levels) /\
  forall j i rg1 rg2,
    nth_error (buildRings levels) j = Some rg1 ->
    nth_error (buildRings levels) (S j) = Some rg2 ->
    (0 <= i < numSides)%Z ->
    exists v1 v2 nrm,
      lookup vs (ring_index numSides (Z.of_nat j) i - 1) = Some v1 /\
      lookup vs (ring_index numSides (Z.of_nat j) ((i + 1) mod numSides) - 1) = Some v2 /\
      side_normal numSides vs (Z.of_nat j) (Z.of_nat j + 1) i = Some nrm /\
      ring_y rg1 <= ring_y rg2 /\
      (ring_y rg1 < ring_y rg2 -> V3.dot nrm (radialOutward v1 v2) < 0) /\
      (ring_y rg1 = ring_y rg2 -> ring_r rg2 < ring_r rg1 -> nrm = mk3 0 (-1) 0) /\
      (ring_y rg1 = ring_y rg2 -> ring_r rg1 < ring_r rg2 -> nrm = mk3 0 1 0).
Proof.
  destruct (vertices_result numSides levels Hne) as [vs [Hv _]].
  exists vs. split; [exact Hv|].
  assert (Hinv : exists y, rings_inv (buildRings levels) y).
  { apply buildRings_loop_inv.
    - eapply Forall_impl; [|exact Hpos]. simpl; tauto.
    - repeat split; simpl; constructor. }
  destruct Hinv as [y0 [_ [Hsort _]]].
  assert (Hrad : Forall (fun rg => 0 < ring_r rg) (buildRings levels)).
  { apply buildRings_loop_radii; [|constructor].
    eapply Forall_impl; [|exact Hpos]. simpl; tauto. }
  intros j i rg1 rg2 E1 E2 Hi.
  assert (Hle : ring_y rg1 <= ring_y rg2).
  { apply (StronglySorted_nth_succ Rle _ j _ _ Hsort);
      rewrite nth_error_map; [rewrite E1|rewrite E2]; reflexivity. }
  assert (Hr1 : 0 < ring_r rg1)
    by (rewrite Forall_forall in Hrad; apply Hrad; eapply nth_error_In; exact E1).
  assert (Hm := Z.mod_pos_bound (i + 1) numSides ltac:(lia)).
  pose proof (vertices_lookup numSides levels vs _ j rg1 i Hv E1 Hi) as Hv1.
  pose proof (vertices_lookup numSides levels vs _ j rg1 _ Hv E1 Hm) as Hv2.
  pose proof (vertices_lookup numSides levels vs _ (S j) rg2 _ Hv E2 Hm) as Hv3.
  replace (Z.of_nat (S j)) with (Z.of_nat j + 1)%Z in Hv3 by lia.
  pose proof (sample_sine_pos numSides i ltac:(lia) Hi) as HD. cbv zeta in HD.
  unfold ring_index. do 3 eexists.
  split; [exact Hv1|]. split; [exact Hv2|]. split.
  { unfold side_normal. cbv zeta. rewrite rem_mod by lia.
    rewrite Hv1, Hv2, Hv3. reflexivity. }
  split; [exact Hle|]. split; [|split].
  - intros Hlt. apply lateral_normal_radial_neg; [exact Hr1|exact Hlt|exact HD].
  - intros Heq Hlt. rewrite <- Heq.
    assert (Hne' : ring_r rg1 <> ring_r rg2) by lra.
    rewrite (lateral_normal_flat _ _ _ _ (ring_y rg1) _ _ Hr1 Hne' HD).
    destruct (Rlt_dec _ _); [reflexivity|lra].
  - intros Heq Hlt. rewrite <- Heq.
    assert (Hne' : ring_r rg1 <> ring_r rg2) by lra.
    rewrite (lateral_normal_flat _ _ _ _ (ring_y rg1) _ _ Hr1 Hne' HD).
    destruct (Rlt_dec _ _); [lra|reflexivity].
Qed.

Lemma lateral_normals_orientation_witness :
  (3 <= 4 <= 36)%Z /\ [mkLevel 1 2 1; mkLevel 1 1 1] <> [] /\
  Forall (fun l => 0 < height l /\ 0 < baseRadius l /\ 0 < topRadius l)
    [mkLevel 1 2 1; mkLevel 1 1 1] /\
  exists vs, vertices 4 [mkLevel 1 2 1; mkLevel 1 1 1]
             = Some (vs, buildRings [mkLevel 1 2 1; mkLevel 1 1 1]).
Proof.
  assert (Hp : Forall (fun l => 0 < height l /\ 0 < baseRadius l /\ 0 < topRadius l)
                 [mkLevel 1 2 1; mkLevel 1 1 1]) by (repeat constructor; simpl; lra).
  split; [lia|]. split; [discriminate|]. split; [exact Hp|].
  destruct (lateral_normals_orientation 4 [mkLevel 1 2 1; mkLevel 1 1 1])
    as (vs & H & _); [lia|discriminate|exact Hp|].
  exists vs. exact H.
Defined.

(** ** The polygon data of the WebGL face *)

Lemma generateData_fold (sides : Z) (radius centerX centerY angleStep : R)
  (l : list Z) (arr : arrays) :
  fold_left (generateData_step sides radius centerX centerY angleStep) l arr =
  mkArrays
    (a_position arr ++
       flat_map (fun s => [centerX + cos (angleStep * IZR s) * radius;
                           centerY + sin (angleStep * IZR s) * radius]) l)
    (a_color arr ++ flat_map (fun _ => [1; 1; 1; 1]) l)
    (indices arr ++
       flat_map (fun s => [0%Z; (s + 1)%Z;
                           if (s + 2 <=? sides)%Z then (s + 2)%Z else 1%Z]) l).
Proof.
  revert arr. induction l as [|s l IH]; intros arr.
  - destruct arr. cbn [fold_left flat_map a_position a_color indices].
    rewrite !app_nil_r. reflexivity.
  - cbn [fold_left flat_map]. rewrite IH. unfold generateData_step.
    cbn [a_position a_color indices]. rewrite <- !app_assoc. reflexivity.
Qed.

Lemma generateData_closed (sides : Z) (radius centerX centerY : R) :
  generateData sides radius centerX centerY =
  mkArrays
    ([centerX; centerY] ++
       flat_map (fun s => [centerX + cos (2 * PI / IZR sides * IZR s) * radius;
                           centerY + sin (2 * PI / IZR sides * IZR s) * radius])
         (seqZ sides))
    ([1; 1; 1; 1] ++ flat_map (fun _ => [1; 1; 1; 1]) (seqZ sides))
    (flat_map (fun s => [0%Z; (s + 1)%Z;
                         if (s + 2 <=? sides)%Z then (s + 2)%Z else 1%Z])
       (seqZ sides)).
Proof. unfold generateData. rewrite generateData_fold. reflexivity. Qed.

(** The third index of triangle [s] is the next rim vertex, cyclically. *)
Lemma generateData_third (sides s : Z) :
  (0 <= s < sides)%Z ->
  (if (s + 2 <=? sides)%Z then (s + 2)%Z else 1%Z) = ((s + 1) mod sides + 1)%Z.
Proof.
  intros Hs. destruct (Z.leb_spec (s + 2) sides).
  - rewrite Z.mod_small by lia. lia.
  - replace (s + 1)%Z with sides by lia. rewrite Z.mod_same by lia. reflexivity.
Qed.

Lemma generateData_position_nth (sides : Z) (radius centerX centerY : R) (s : Z) (r : nat) :
  (0 <= s < sides)%Z -> (r < 2)%nat ->
  nth_error (a_position (generateData sides radius centerX centerY))
    (2 * Z.to_nat (s + 1) + r) =
  nth_error [centerX + cos (2 * PI / IZR sides * IZR s) * radius;
             centerY + sin (2 * PI / IZR sides * IZR s) * radius] r.
Proof.
  intros Hs Hr. rewrite generateData_closed. cbn [a_position].
  replace (2 * Z.to_nat (s + 1) + r)%nat with (2 + (Z.to_nat s * 2 + r))%nat by lia.
  rewrite nth_error_app2 by (cbn [List.length]; lia).
  replace (2 + (Z.to_nat s * 2 + r) - List.length [centerX; centerY])%nat
    with (Z.to_nat s * 2 + r)%nat by (cbn [List.length]; lia).
  rewrite (nth_error_flat_map_const _ 2 _ (Z.to_nat s) r s); [| reflexivity | | exact Hr].
  - reflexivity.
  - rewrite nth_error_seqZ by lia. rewrite Z2Nat.id by lia. reflexivity.
Qed.

Lemma generateData_index_nth (sides : Z) (radius centerX centerY : R) (s : Z) (r : nat) :
  (0 <= s < sides)%Z -> (r < 3)%nat ->
  nth_error (indices (generateData sides radius centerX centerY)) (3 * Z.to_nat s + r) =
  nth_error [0%Z; (s + 1)%Z; ((s + 1) mod sides + 1)%Z] r.
Proof.
  intros Hs Hr. rewrite generateData_closed. cbn [indices].
  replace (3 * Z.to_nat s + r)%nat with (Z.to_nat s * 3 + r)%nat by lia.
  rewrite (nth_error_flat_map_const _ 3 _ (Z.to_nat s) r s); [| reflexivity | | exact Hr].
  - rewrite generateData_third by exact Hs. reflexivity.
  - rewrite nth_error_seqZ by lia. rewrite Z2Nat.id by lia. reflexivity.
Qed.

(** X13: [generateData] returns 2(sides+1) position components, 4(sides+1)
    color components that are all 1 (white), and 3*sides indices, all
    between 0 and sides; triangle [s] is the fan triangle
    [0, s+1, ((s+1) mod sides) + 1], closing back to vertex 1 on the last
    side. *)
Theorem generateData_layout (sides : Z) (radius centerX centerY : R) :
  let arr := generateData sides radius centerX centerY in
  List.length (a_position arr) = (2 * (Z.to_nat sides + 1))%nat /\
  List.length (a_color arr) = (4 * (Z.to_nat sides + 1))%nat /\
  Forall (fun c => c = 1) (a_color arr) /\
  List.length (indices arr) = (3 * Z.to_nat sides)%nat /\
  Forall (fun k => 0 <= k <= sides)%Z (indices arr) /\
  (forall s, (0 <= s < sides)%Z ->
     nth_error (indices arr) (3 * Z.to_nat s) = Some 0%Z /\
     nth_error (indices arr) (3 * Z.to_nat s + 1) = Some (s + 1)%Z /\
     nth_error (indices arr) (3 * Z.to_nat s + 2) = Some ((s + 1) mod sides + 1)%Z).
Proof.
  intros arr.
  split; [|split; [|split; [|split; [|split]]]].
  - unfold arr. rewrite generateData_closed. cbn [a_position].
    rewrite length_app, (length_flat_map_const _ 2) by reflexivity.
    rewrite length_seqZ. cbn [List.length]. lia.
  - unfold arr. rewrite generateData_closed. cbn [a_color].
    rewrite length_app, (length_flat_map_const _ 4) by reflexivity.
    rewrite length_seqZ. cbn [List.length]. lia.
  - unfold arr. rewrite generateData_closed. cbn [a_color].
    apply Forall_app. split; [repeat constructor|].
    apply Forall_forall. intros c Hc. apply in_flat_map in Hc as [s [_ Hc]].
    cbn [In] in Hc. intuition.
  - unfold arr. rewrite generateData_closed. cbn [indices].
    rewrite (length_flat_map_const _ 3) by reflexivity.
    rewrite length_seqZ. lia.
  - unfold arr. rewrite generateData_closed. cbn [indices].
    apply Forall_forall. intros k Hk. apply in_flat_map in Hk as [s [Hs Hk]].
    apply In_seqZ in Hs. rewrite generateData_third in Hk by exact Hs.
    pose proof (Z.mod_pos_bound (s + 1) sides ltac:(lia)).
    cbn [In] in Hk. destruct Hk as [<-|[<-|[<-|[]]]]; lia.
  - intros s Hs. unfold arr.
    pose proof (generateData_index_nth sides radius centerX centerY s 0 Hs ltac:(lia)) as H0.
    pose proof (generateData_index_nth sides radius centerX centerY s 1 Hs ltac:(lia)) as H1.
    pose proof (generateData_index_nth sides radius centerX centerY s 2 Hs ltac:(lia)) as H2.
    rewrite Nat.add_0_r in H0. split; [exact H0|]. split; [exact H1|exact H2].
Qed.

(** X14: in [generateData], vertex 0 is the center [(centerX, centerY)] and
    rim vertex [s+1] (for 0 <= s < sides) is
    [(centerX + cos(s * 2PI/sides) * radius, centerY + sin(s * 2PI/sides) * radius)],
    at distance [|radius|] from the center. *)
Theorem generateData_positions (sides : Z) (radius centerX centerY : R) :
  let arr := generateData sides radius centerX centerY in
  let angleStep := 2 * PI / IZR sides in
  nth_error (a_position arr) 0 = Some centerX /\
  nth_error (a_position arr) 1 = Some centerY /\
  (forall s, (0 <= s < sides)%Z ->
     exists x y,
       nth_error (a_position arr) (2 * Z.to_nat (s + 1)) = Some x /\
       nth_error (a_position arr) (2 * Z.to_nat (s + 1) + 1) = Some y /\
       x = centerX + cos (angleStep * IZR s) * radius /\
       y = centerY + sin (angleStep * IZR s) * radius /\
       (x - centerX) ^ 2 + (y - centerY) ^ 2 = radius ^ 2).
Proof.
  intros arr angleStep.
  split; [unfold arr; rewrite generateData_closed; reflexivity|].
  split; [unfold arr; rewrite generateData_closed; reflexivity|].
  intros s Hs.
  pose proof (generateData_position_nth sides radius centerX centerY s 0 Hs ltac:(lia)) as H0.
  pose proof (generateData_position_nth sides radius centerX centerY s 1 Hs ltac:(lia)) as H1.
  rewrite Nat.add_0_r in H0.
  do 2 eexists. split; [exact H0|]. split; [exact H1|].
  split; [reflexivity|]. split; [reflexivity|].
  pose proof (sin2_cos2 (angleStep * IZR s)) as Hsc. unfold Rsqr in Hsc.
  unfold angleStep in *.
  replace ((centerX + cos (2 * PI / IZR sides * IZR s) * radius - centerX) ^ 2 +
           (centerY + sin (2 * PI / IZR sides * IZR s) * radius - centerY) ^ 2)
    with ((sin (2 * PI / IZR sides * IZR s) * sin (2 * PI / IZR sides * IZR s) +
           cos (2 * PI / IZR sides * IZR s) * cos (2 * PI / IZR sides * IZR s)) * radius ^ 2)
    by ring.
  rewrite Hsc. ring.
Qed.

(** X15: for at least 3 sides and a non-zero radius, every triangle
    [0, a, b] of [generateData] is counter-clockwise in the data's
    coordinates: with [p0] the center and [pa], [pb] the positions read at
    indices [a] and [b], the cross product [(pa - p0) x (pb - p0)] is
    positive. *)
Theorem generateData_ccw (sides : Z) (radius centerX centerY : R)
  (Hs : (3 <= sides)%Z) (Hr : radius <> 0) :
  let arr := generateData sides radius centerX centerY in
  forall s, (0 <= s < sides)%Z ->
    exists a b xa ya xb yb,
      nth_error (indices arr) (3 * Z.to_nat s) = Some 0%Z /\
      nth_error (indices arr) (3 * Z.to_nat s + 1) = Some a /\
      nth_error (indices arr) (3 * Z.to_nat s + 2) = Some b /\
      nth_error (a_position arr) (2 * Z.to_nat a) = Some xa /\
      nth_error (a_position arr) (2 * Z.to_nat a + 1) = Some ya /\
      nth_error (a_position arr) (2 * Z.to_nat b) = Some xb /\
      nth_error (a_position arr) (2 * Z.to_nat b + 1) = Some yb /\
      0 < (xa - centerX) * (yb - centerY) - (ya - centerY) * (xb - centerX).
Proof.
  intros arr s Hsr.
  pose proof (generateData_index_nth sides radius centerX centerY s 0 Hsr ltac:(lia)) as I0.
  pose proof (generateData_index_nth sides radius centerX centerY s 1 Hsr ltac:(lia)) as I1.
  pose proof (generateData_index_nth sides radius centerX centerY s 2 Hsr ltac:(lia)) as I2.
  rewrite Nat.add_0_r in I0.
  set (s' := ((s + 1) mod sides)%Z).
  assert (Hs' : (0 <= s' < sides)%Z) by (apply Z.mod_pos_bound; lia).
  pose proof (generateData_position_nth sides radius centerX centerY s 0 Hsr ltac:(lia)) as P0.
  pose proof (generateData_position_nth sides radius centerX centerY s 1 Hsr ltac:(lia)) as P1.
  pose proof (generateData_position_nth sides radius centerX centerY s' 0 Hs' ltac:(lia)) as Q0.
  pose proof (generateData_position_nth sides radius centerX centerY s' 1 Hs' ltac:(lia)) as Q1.
  rewrite Nat.add_0_r in P0, Q0.
  exists (s + 1)%Z, (s' + 1)%Z. do 4 eexists.
  split; [exact I0|]. split; [exact I1|]. split; [exact I2|].
  split; [exact P0|]. split; [exact P1|]. split; [exact Q0|]. split; [exact Q1|].
  cbn [nth_error].
  pose proof (sample_sine_pos sides s ltac:(lia) Hsr) as HD. cbv zeta in HD. fold s' in HD.
  rewrite !(Rmult_comm (2 * PI / IZR sides) (IZR _)).
  set (c := cos (IZR s * (2 * PI / IZR sides))) in *.
  set (sn := sin (IZR s * (2 * PI / IZR sides))) in *.
  set (c' := cos (IZR s' * (2 * PI / IZR sides))) in *.
  set (sn' := sin (IZR s' * (2 * PI / IZR sides))) in *.
  replace ((centerX + c * radius - centerX) * (centerY + sn' * radius - centerY) -
           (centerY + sn * radius - centerY) * (centerX + c' * radius - centerX))
    with ((c * sn' - sn * c') * (radius * radius)) by ring.
  apply Rmult_lt_0_compat; [exact HD|].
  destruct (Rlt_dec radius 0); nra.
Qed.

Lemma generateData_ccw_witness :
  (3 <= 4)%Z /\ 2 <> 0 /\
  exists a b xa ya xb yb,
    nth_error (indices (generateData 4 2 0 0)) (3 * Z.to_nat 3 + 1) = Some a /\
    nth_error (indices (generateData 4 2 0 0)) (3 * Z.to_nat 3 + 2) = Some b /\
    nth_error (a_position (generateData 4 2 0 0)) (2 * Z.to_nat a) = Some xa /\
    nth_error (a_position (generateData 4 2 0 0)) (2 * Z.to_nat a + 1) = Some ya /\
    nth_error (a_position (generateData 4 2 0 0)) (2 * Z.to_nat b) = Some xb /\
    nth_error (a_position (generateData 4 2 0 0)) (2 * Z.to_nat b + 1) = Some yb /\
    0 < (xa - 0) * (yb - 0) - (ya - 0) * (xb - 0).
Proof.
  split; [lia|]. split; [lra|].
  destruct (generateData_ccw 4 2 0 0 ltac:(lia) ltac:(lra) 3 ltac:(lia))
    as (a & b & xa & ya & xb & yb & _ & H1 & H2 & H3 & H4 & H5 & H6 & H7).
  exists a, b, xa, ya, xb, yb. repeat split; assumption.
Defined.
